(** * The select prompt of Inquirer.js: packages/select/src/index.mts

    A shallow embedding of the single-select list prompt: the choice
    model, the selectability predicate, the keypress handler (cursor
    navigation and confirmation) and the frame renderer, followed by the
    properties of the prompt's state machine and of its frames. *)

From Stdlib Require Import ZArith List String Bool Lia.
Import ListNotations.

Local Open Scope Z_scope.

(** ** Data model (index.mts, lines 20-31) *)

(** [disabled?: boolean | string]: an absent field is [None]. *)
Inductive Disabled : Type :=
| DisabledBool (b : bool)
| DisabledString (reason : string).

(** [type Choice]. Optional fields are [option]s, [None] standing for
    the JavaScript [undefined]. *)
Record Choice : Type := mkChoice {
  value : string;
  name : option string;
  description : option string;
  disabled : option Disabled
}.

(** The [Separator] class of the core package: an object that carries its
    display text in the field [separator]. *)
Record Separator : Type := mkSeparator {
  separator : string
}.

(** An element of [ReadonlyArray<Choice | Separator>]. *)
Inductive Entry : Type :=
| IsChoice (c : Choice)
| IsSeparator (s : Separator).

(** [SelectConfig]; [message] has been resolved to a string by the time
    the prompt function runs. *)
Record SelectConfig : Type := mkConfig {
  message : string;
  choices : list Entry;
  pageSize : option Z
}.

Inductive Status : Type := Pending | Done.

(** The two [useState] cells of the prompt. *)
Record PromptState : Type := mkState {
  status : Status;
  cursorPosition : Z
}.

(** What a run of JavaScript code can do: return, throw, or (for the
    [while] loop, which is run with a bound on its iterations) not finish
    within the bound. *)
Inductive JsError : Type :=
| Error (msg : string)
| TypeError.

Inductive Outcome (A : Type) : Type :=
| Returned (a : A)
| Thrown (e : JsError)
| OutOfFuel.

Arguments Returned {A} a.
Arguments Thrown {A} e.
Arguments OutOfFuel {A}.

(** ** JavaScript primitives used by the prompt *)

(** Truthiness of a string: only the empty string is falsy. *)
Definition truthy_string (s : string) : bool :=
  match s with
  | EmptyString => false
  | String _ _ => true
  end.

(** Truthiness of an optional string field ([undefined] is falsy). *)
Definition truthy_field (f : option string) : bool :=
  match f with
  | None => false
  | Some s => truthy_string s
  end.

(** Truthiness of [choice.disabled]. *)
Definition truthy_disabled (d : option Disabled) : bool :=
  match d with
  | None => false
  | Some (DisabledBool b) => b
  | Some (DisabledString reason) => truthy_string reason
  end.

(** [array[i]] for an integer [i]: [undefined] out of range. *)
Definition get {A : Type} (l : list A) (i : Z) : option A :=
  if i <? 0 then None else nth_error l (Z.to_nat i).

(** [array.length]. *)
Definition length (l : list Entry) : Z := Z.of_nat (List.length l).

(** [array.findIndex(p)]: the index of the first element accepted by [p],
    or -1. *)
Fixpoint findIndex_from {A : Type} (p : A -> bool) (l : list A) (i : Z) : Z :=
  match l with
  | [] => -1
  | x :: rest => if p x then i else findIndex_from p rest (i + 1)
  end.

Definition findIndex {A : Type} (p : A -> bool) (l : list A) : Z :=
  findIndex_from p l 0.

(** [array.map((x, index) => f(x, index))]. *)
Fixpoint map_from {A B : Type} (f : A -> Z -> B) (l : list A) (i : Z) : list B :=
  match l with
  | [] => []
  | x :: rest => f x i :: map_from f rest (i + 1)
  end.

Definition mapi {A B : Type} (f : A -> Z -> B) (l : list A) : list B :=
  map_from f l 0.

(** ** Selectability predicate (lines 33-35) *)

Definition isSelectableChoice (choice : option Entry) : bool :=
  match choice with
  | None => false
  | Some (IsSeparator _) => false
  | Some (IsChoice c) => negb (truthy_disabled (disabled c))
  end.

(** ** Initial cursor position (lines 45-52) *)

Definition no_selectable_message : string :=
  "[select prompt] No selectable choices. All choices are disabled.".

Definition initialCursorPosition (choices : list Entry) : Outcome Z :=
  let startIndex := findIndex (fun e => isSelectableChoice (Some e)) choices in
  if startIndex <? 0 then Thrown (Error no_selectable_message)
  else Returned startIndex.

(** ** Keypress handler (lines 57-84) *)

(** A keypress, by the class that the core package's [isEnterKey],
    [isUpKey], [isDownKey] and [isNumberKey] give it, in the order in which
    the handler asks; a number key carries [Number(key.name)]. *)
Inductive KeypressEvent : Type :=
| EnterKey
| UpKey
| DownKey
| NumberKey (n : Z)
| OtherKey.

(** Reading a property of the entry under the cursor, which the source
    types [as Choice]: a separator has no such property. *)
Definition entry_value (e : Entry) : option string :=
  match e with
  | IsChoice c => Some (value c)
  | IsSeparator _ => None
  end.

Definition entry_name (e : Entry) : option string :=
  match e with
  | IsChoice c => name c
  | IsSeparator _ => None
  end.

Definition entry_description (e : Entry) : option string :=
  match e with
  | IsChoice c => description c
  | IsSeparator _ => None
  end.

(** The call of [done], if the handler makes one, with its argument
    ([None] for [undefined]). *)
Inductive Completion : Type :=
| NotCalled
| DoneWith (v : option string).

(** The loop of lines 66-70, run for at most [fuel] turns of its body.
    [%] is JavaScript's remainder, which takes the sign of the dividend.
    On an empty list JavaScript's remainder is NaN and [choices[NaN]] is
    [undefined]; here [Z.rem] by 0 gives an integer and [get] of the empty
    list is [None]: the loop goes on in both. *)
Fixpoint searchLoop (fuel : nat) (choices : list Entry) (offset : Z)
    (newCursorPosition : Z) (selectedOption : option Entry) : Outcome Z :=
  if isSelectableChoice selectedOption then Returned newCursorPosition
  else
    match fuel with
    | O => OutOfFuel
    | S fuel' =>
        let newCursorPosition' :=
          Z.rem (newCursorPosition + offset + length choices) (length choices) in
        searchLoop fuel' choices offset newCursorPosition'
          (get choices newCursorPosition')
    end.

Definition setStatus (st : PromptState) (s : Status) : PromptState :=
  {| status := s; cursorPosition := cursorPosition st |}.

Definition setCursorPos (st : PromptState) (p : Z) : PromptState :=
  {| status := status st; cursorPosition := p |}.

(** The handler sees the state of the render that registered it; its
    result is the state after it and the call of [done] it made. An
    exception leaves the handler with the exception alone. *)
Definition handler (fuel : nat) (config : SelectConfig) (st : PromptState)
    (key : KeypressEvent) : Outcome (PromptState * Completion) :=
  let choices := choices config in
  let choice := get choices (cursorPosition st) in
  let directional (offset : Z) :=
    match searchLoop fuel choices offset (cursorPosition st) None with
    | Returned newCursorPosition =>
        Returned (setCursorPos st newCursorPosition, NotCalled)
    | Thrown e => Thrown e
    | OutOfFuel => OutOfFuel
    end in
  match key with
  | EnterKey =>
      match choice with
      | None => Thrown TypeError
      | Some e => Returned (setStatus st Done, DoneWith (entry_value e))
      end
  | UpKey => directional (-1)
  | DownKey => directional 1
  | NumberKey n =>
      let newCursorPosition := n - 1 in
      if negb (isSelectableChoice (get choices newCursorPosition))
      then Returned (st, NotCalled)
      else Returned (setCursorPos st newCursorPosition, NotCalled)
  | OtherKey => Returned (st, NotCalled)
  end.

(** Feeding the handler a sequence of keypresses, collecting the calls
    of [done] in order. *)
Fixpoint dispatch (fuel : nat) (config : SelectConfig) (st : PromptState)
    (keys : list KeypressEvent) : Outcome (PromptState * list Completion) :=
  match keys with
  | [] => Returned (st, [])
  | key :: rest =>
      match handler fuel config st key with
      | Returned (st', c) =>
          match dispatch fuel config st' rest with
          | Returned (st'', cs) => Returned (st'', c :: cs)
          | Thrown e => Thrown e
          | OutOfFuel => OutOfFuel
          end
      | Thrown e => Thrown e
      | OutOfFuel => OutOfFuel
      end
  end.

(** The states a prompt can be in: the one [useState] starts with, and
    those the handler produces from them when it returns. *)
Inductive reachable (config : SelectConfig) : PromptState -> Prop :=
| reachable_init : forall startIndex,
    initialCursorPosition (choices config) = Returned startIndex ->
    reachable config {| status := Pending; cursorPosition := startIndex |}
| reachable_keypress : forall st key fuel st' c,
    reachable config st ->
    handler fuel config st key = Returned (st', c) ->
    reachable config st'.

(** ** Frame renderer (lines 86-120) *)

Definition newline : string := String (Ascii.ascii_of_nat 10) EmptyString.

(** JavaScript's [a || b] on two optional strings. *)
Definition or_else (a b : option string) : option string :=
  if truthy_field a then a else b.

(** The conversion to a string that a styling function applies to its
    argument. *)
Definition to_string (v : option string) : string :=
  match v with
  | Some s => s
  | None => "undefined"
  end.

(** [choice.name || choice.value] for a [Choice], whose [value] is a
    string. *)
Definition line_of (c : Choice) : string :=
  if truthy_field (name c) then to_string (name c) else value c.

Section Renderer.

(** The collaborators of the renderer: chalk's styles, the pointer
    glyph of figures, the cursor-hiding sequence of ansi-escapes, the
    prefix given by [usePrefix], and the [Paginator] object, whose
    [paginate] method reads and updates the object. *)
Variables bold dim cyan : string -> string.
Variable pointer : string.
Variable cursorHide : string.
Variable prefix : string.
Variable Paginator : Type.
Variable paginate : Paginator -> string -> Z -> option Z -> string * Paginator.

(** The two [useRef] cells. *)
Record Refs : Type := mkRefs {
  firstRender : bool;
  paginator : Paginator
}.

(** Lines 86-90: the header and the new content of [firstRender]. *)
Definition renderMessage (config : SelectConfig) (firstRender : bool)
    : string * bool :=
  let message := bold (message config) in
  if firstRender then ((message ++ dim " (Use arrow keys)")%string, false)
  else (message, firstRender).

(** Lines 97-114: the line of one entry of the list. *)
Definition renderChoice (cursorPosition : Z) (choice : Entry) (index : Z)
    : string :=
  match choice with
  | IsSeparator s => (" " ++ separator s)%string
  | IsChoice c =>
      let line := line_of c in
      if truthy_disabled (disabled c) then
        let disabledLabel :=
          match disabled c with
          | Some (DisabledString reason) => reason
          | _ => "(disabled)"%string
          end in
        dim ("- " ++ line ++ " " ++ disabledLabel)%string
      else if index =? cursorPosition then
        cyan (pointer ++ " " ++ line)%string
      else ("  " ++ line)%string
  end.

(** Lines 92-120: the frame, given the header. *)
Definition renderFrame (config : SelectConfig) (message : string)
    (pg : Paginator) (st : PromptState) : Outcome string * Paginator :=
  let choice := get (choices config) (cursorPosition st) in
  match status st with
  | Done =>
      match choice with
      | None => (Thrown TypeError, pg)
      | Some e =>
          (Returned
             (prefix ++ " " ++ message ++ " "
              ++ cyan (to_string (or_else (entry_name e) (entry_value e))))%string,
           pg)
      end
  | Pending =>
      let allChoices :=
        String.concat newline
          (mapi (renderChoice (cursorPosition st)) (choices config)) in
      let (windowedChoices, pg') :=
        paginate pg allChoices (cursorPosition st) (pageSize config) in
      match choice with
      | None => (Thrown TypeError, pg')
      | Some e =>
          let choiceDescription :=
            if truthy_field (entry_description e)
            then (newline ++ to_string (entry_description e))%string
            else ""%string in
          (Returned
             (prefix ++ " " ++ message ++ newline ++ windowedChoices
              ++ choiceDescription ++ cursorHide)%string,
           pg')
      end
  end.

(** One render of a prompt whose state exists already. *)
Definition render (config : SelectConfig) (refs : Refs) (st : PromptState)
    : Outcome string * Refs :=
  let (message, firstRender') := renderMessage config (firstRender refs) in
  let (frame, pg) := renderFrame config message (paginator refs) st in
  (frame, {| firstRender := firstRender'; paginator := pg |}).

(** One run of the prompt function (lines 37-121): [useState] runs its
    initializer when no state is stored yet, and the frame is built
    after that. *)
Definition prompt (config : SelectConfig) (stored : option PromptState)
    (refs : Refs) : Outcome (PromptState * string) * Refs :=
  let state :=
    match stored with
    | Some st => Returned st
    | None =>
        match initialCursorPosition (choices config) with
        | Returned startIndex =>
            Returned {| status := Pending; cursorPosition := startIndex |}
        | Thrown e => Thrown e
        | OutOfFuel => OutOfFuel
        end
    end in
  match state with
  | Returned st =>
      let (frame, refs') := render config refs st in
      (match frame with
       | Returned f => Returned (st, f)
       | Thrown e => Thrown e
       | OutOfFuel => OutOfFuel
       end, refs')
  | Thrown e => (Thrown e, refs)
  | OutOfFuel => (OutOfFuel, refs)
  end.

(** The frames of successive renders of one prompt, which share the
    two refs. *)
Fixpoint renderAll (config : SelectConfig) (refs : Refs)
    (states : list PromptState) : list (Outcome string) :=
  match states with
  | [] => []
  | st :: rest =>
      let (frame, refs') := render config refs st in
      frame :: renderAll config refs' rest
  end.

(** The header as the specification words it: the styled message,
    followed by the hint on the first render only. *)
Definition header_spec (config : SelectConfig) (isFirstRender : bool)
    : string :=
  if isFirstRender
  then (bold (message config) ++ dim " (Use arrow keys)")%string
  else bold (message config).

(** The frames of a prompt's lifetime as the specification words them:
    render number [k] (from 0) is first exactly when [k] is 0. *)
Fixpoint frames_spec (config : SelectConfig) (k : nat) (pg : Paginator)
    (states : list PromptState) : list (Outcome string) :=
  match states with
  | [] => []
  | st :: rest =>
      let (frame, pg') :=
        renderFrame config (header_spec config (Nat.eqb k 0)) pg st in
      frame :: frames_spec config (S k) pg' rest
  end.

End Renderer.

Arguments mkRefs {Paginator} firstRender paginator.
Arguments firstRender {Paginator} r.
Arguments paginator {Paginator} r.

(** ** The specification's wording of the directional search *)

(** The candidate after [k] advances by [offset] from [cursor], modulo
    the list length. *)
Definition candidate (choices : list Entry) (cursor offset k : Z) : Z :=
  (cursor + k * offset) mod length choices.

(** [idx] is the first index reached from [cursor] by repeatedly adding
    [offset] modulo the list length that the selectability predicate
    accepts. *)
Definition first_reached (choices : list Entry) (cursor offset idx : Z) : Prop :=
  exists k,
    1 <= k <= length choices /\
    idx = candidate choices cursor offset k /\
    isSelectableChoice (get choices idx) = true /\
    forall j, 1 <= j < k ->
      isSelectableChoice (get choices (candidate choices cursor offset j)) = false.

(** A key of the directional class. *)
Definition isDirectional (key : KeypressEvent) : bool :=
  match key with
  | UpKey | DownKey => true
  | _ => false
  end.

(** Line 63: the offset of a directional key, -1 for up and 1 for down. *)
Definition step_offset (key : KeypressEvent) : Z :=
  match key with
  | UpKey => -1
  | _ => 1
  end.

(** The display label read as [name], or [value] when [name] is absent. *)
Definition name_unless_absent (c : Choice) : string :=
  match name c with
  | Some n => n
  | None => value c
  end.

(** The display label read as [name] when it is a non-empty string, and
    [value] otherwise. *)
Definition name_unless_empty (c : Choice) : string :=
  match name c with
  | Some (String a rest) => String a rest
  | _ => value c
  end.

(** A [disabled] field that is absent or [false], and one that is falsy. *)
Definition disabled_absent_or_false (c : Choice) : Prop :=
  disabled c = None \/ disabled c = Some (DisabledBool false).

Definition disabled_falsy (c : Choice) : Prop :=
  disabled c = None \/ disabled c = Some (DisabledBool false) \/
  disabled c = Some (DisabledString "").

(** ** Example configurations *)

Definition plain (v : string) : Entry :=
  IsChoice {| value := v; name := None; description := None; disabled := None |}.

Definition off (v : string) : Entry :=
  IsChoice {| value := v; name := None; description := None;
              disabled := Some (DisabledBool true) |}.

Definition rule : Entry := IsSeparator {| separator := "---" |}.

(** Example 1 of the specification: A, a separator, B disabled, C. *)
Definition example1 : SelectConfig :=
  {| message := "Pick"; choices := [plain "a"; rule; off "b"; plain "c"];
     pageSize := None |}.

(** Example 2: A disabled, B selectable. *)
Definition example2 : SelectConfig :=
  {| message := "Pick"; choices := [off "a"; plain "b"]; pageSize := None |}.

(** Example 3: three selectable choices. *)
Definition example3 : SelectConfig :=
  {| message := "Pick"; choices := [plain "a"; plain "b"; plain "c"];
     pageSize := None |}.

(** Example 5: a choice with value "c" and name "Gamma". *)
Definition gamma : Choice :=
  {| value := "c"; name := Some "Gamma"%string; description := None;
     disabled := None |}.

Definition example5 : SelectConfig :=
  {| message := "Pick"; choices := [plain "a"; plain "b"; IsChoice gamma];
     pageSize := None |}.

(** A single selectable choice between two that are not. *)
Definition lonely : SelectConfig :=
  {| message := "Pick"; choices := [off "a"; plain "b"; rule];
     pageSize := None |}.

(** A choice whose [disabled] is the empty string. *)
Definition blank_reason : Choice :=
  {| value := "a"; name := None; description := None;
     disabled := Some (DisabledString "") |}.

Definition blank_reason_config : SelectConfig :=
  {| message := "Pick"; choices := [IsChoice blank_reason]; pageSize := None |}.

(** A choice whose [name] is the empty string. *)
Definition blank_name : Choice :=
  {| value := "c"; name := Some ""%string; description := None;
     disabled := None |}.

Definition blank_name_config : SelectConfig :=
  {| message := "Pick"; choices := [IsChoice blank_name]; pageSize := None |}.

(** A renderer without styling and with a paginator that shows the whole
    list and counts its calls. *)
Definition plain_paginate (calls : nat) (output : string) (active : Z)
    (pageSize : option Z) : string * nat :=
  (output, S calls).

Definition plain_render :=
  render (fun s => s) (fun s => s) (fun s => s) ">" "<hide>" "?" nat plain_paginate.

Definition plain_prompt :=
  prompt (fun s => s) (fun s => s) (fun s => s) ">" "<hide>" "?" nat plain_paginate.

(** Example 4: no choices at all. *)
Definition example4 : SelectConfig :=
  {| message := "Pick"; choices := []; pageSize := None |}.

(** The refs of a prompt that has not rendered yet. *)
Definition fresh_refs : Refs nat :=
  {| firstRender := true; paginator := O |}.

(** The refs of a prompt that has rendered once. *)
Definition used_refs : Refs nat :=
  {| firstRender := false; paginator := 1%nat |}.

(** ** Helpers for statements about sequences of keypresses *)

(** The directional key of the other direction. *)
Definition opposite (key : KeypressEvent) : KeypressEvent :=
  match key with
  | UpKey => DownKey
  | DownKey => UpKey
  | other => other
  end.

(** A key of the enter class. *)
Definition isEnter (key : KeypressEvent) : bool :=
  match key with
  | EnterKey => true
  | _ => false
  end.

(** The call of [done] that a key of a sequence is seen to make. *)
Definition called (c : Completion) : bool :=
  match c with
  | NotCalled => false
  | DoneWith _ => true
  end.

(** Two disabled choices and a separator: nothing to select. *)
Definition nothing_selectable : SelectConfig :=
  {| message := "Pick"; choices := [off "a"; rule; off "b"]; pageSize := None |}.

(** A choice with a description. *)
Definition described : Choice :=
  {| value := "d"; name := Some "Delta"%string;
     description := Some "The fourth letter"%string; disabled := None |}.

Definition described_config : SelectConfig :=
  {| message := "Pick"; choices := [plain "a"; IsChoice described];
     pageSize := Some 7 |}.

(** ** The parts of a frame *)

Section FrameParts.

Variables dim cyan : string -> string.
Variable pointer : string.
Variable cursorHide : string.
Variable Paginator : Type.
Variable paginate : Paginator -> string -> Z -> option Z -> string * Paginator.

(** Lines 96-117: what the paginator returns for the list body of a
    state, with its new state. *)
Definition paginated (config : SelectConfig) (pg : Paginator)
    (st : PromptState) : string * Paginator :=
  paginate pg
    (String.concat newline
       (mapi (renderChoice dim cyan pointer (cursorPosition st)) (choices config)))
    (cursorPosition st) (pageSize config).

(** What follows the header in the frame of a state whose cursor is on
    the choice [c]: the label for [Done] (line 93); the windowed list, the
    description if any and the cursor-hiding sequence for [Pending]
    (line 120). *)
Definition frame_rest (config : SelectConfig) (pg : Paginator)
    (st : PromptState) (c : Choice) : string :=
  match status st with
  | Done => (" " ++ cyan (name_unless_empty c))%string
  | Pending =>
      (newline ++ fst (paginated config pg st)
       ++ match description c with
          | Some (String a rest) => newline ++ String a rest
          | _ => ""
          end
       ++ cursorHide)%string
  end.

(** The paginator after the renders of a sequence of states: a pending
    render calls it once, a done render does not. *)
Fixpoint paginator_after (config : SelectConfig) (pg : Paginator)
    (states : list PromptState) : Paginator :=
  match states with
  | [] => pg
  | st :: rest =>
      paginator_after config
        match status st with
        | Done => pg
        | Pending => snd (paginated config pg st)
        end rest
  end.

End FrameParts.

(** ** Facts about the primitives *)

Lemma append_assoc (a b c : string) :
  ((a ++ b) ++ c = a ++ (b ++ c))%string.
Proof. induction a as [| x a IH]; simpl; [reflexivity | now rewrite IH]. Qed.

Lemma append_cancel_l (a x y : string) :
  (a ++ x = a ++ y)%string -> x = y.
Proof.
  induction a as [| ch a IH]; simpl; intros H; [exact H |].
  inversion H. now apply IH.
Qed.

Lemma append_length_sum (a b : string) :
  String.length (a ++ b) = (String.length a + String.length b)%nat.
Proof. induction a as [| ch a IH]; simpl; [reflexivity | now rewrite IH]. Qed.

Lemma append_grows (h t : string) :
  (h ++ t = t)%string -> h = ""%string.
Proof.
  intros H. apply (f_equal String.length) in H.
  rewrite append_length_sum in H.
  destruct h as [| ch h]; [reflexivity | simpl in H; lia].
Qed.

Lemma get_nat {A : Type} (l : list A) (k : nat) :
  get l (Z.of_nat k) = nth_error l k.
Proof.
  unfold get.
  destruct (Z.ltb_spec (Z.of_nat k) 0) as [H | H]; [lia |].
  now rewrite Nat2Z.id.
Qed.

Lemma get_negative {A : Type} (l : list A) (i : Z) :
  i < 0 -> get l i = None.
Proof.
  intros H. unfold get.
  destruct (Z.ltb_spec i 0); [reflexivity | lia].
Qed.

Lemma get_Some_range (l : list Entry) (i : Z) (x : Entry) :
  get l i = Some x -> 0 <= i < length l.
Proof.
  unfold get, length. intros H.
  destruct (Z.ltb_spec i 0) as [Hi | Hi]; [discriminate |].
  assert (Hlt : (Z.to_nat i < List.length l)%nat).
  { apply nth_error_Some. congruence. }
  lia.
Qed.

Lemma get_in_range (l : list Entry) (i : Z) :
  0 <= i < length l -> exists x, get l i = Some x.
Proof.
  unfold get, length. intros H.
  destruct (Z.ltb_spec i 0) as [Hi | Hi]; [lia |].
  destruct (nth_error l (Z.to_nat i)) as [x |] eqn:E; [now exists x |].
  apply nth_error_None in E. lia.
Qed.

Lemma selectable_range (l : list Entry) (i : Z) :
  isSelectableChoice (get l i) = true -> 0 <= i < length l.
Proof.
  intros H. destruct (get l i) as [x |] eqn:E; [| discriminate].
  now apply get_Some_range with x.
Qed.

Lemma selectable_choice (o : option Entry) :
  isSelectableChoice o = true <->
  exists c, o = Some (IsChoice c) /\ truthy_disabled (disabled c) = false.
Proof.
  split.
  - destruct o as [[c | s] |]; simpl; try discriminate.
    intros H. exists c. split; [reflexivity |].
    now apply negb_true_iff.
  - intros [c [-> H]]. simpl. now rewrite H.
Qed.

Lemma truthy_disabled_false (c : Choice) :
  truthy_disabled (disabled c) = false <-> disabled_falsy c.
Proof.
  unfold disabled_falsy. split.
  - destruct (disabled c) as [[[|] | [| a r]] |]; simpl; intros H;
      try discriminate; auto.
  - intros [-> | [-> | ->]]; reflexivity.
Qed.

Lemma no_selectable_iff (l : list Entry) :
  (forall i, isSelectableChoice (get l i) = false) <->
  (forall x, In x l -> isSelectableChoice (Some x) = false).
Proof.
  split.
  - intros H x Hin. apply In_nth_error in Hin. destruct Hin as [k Hk].
    specialize (H (Z.of_nat k)). now rewrite get_nat, Hk in H.
  - intros H i. unfold get.
    destruct (i <? 0); [reflexivity |].
    destruct (nth_error l (Z.to_nat i)) as [x |] eqn:E; [| reflexivity].
    apply H. now apply nth_error_In with (Z.to_nat i).
Qed.

Lemma selectable_dec (l : list Entry) :
  (forall i, isSelectableChoice (get l i) = false) \/
  (exists i, isSelectableChoice (get l i) = true).
Proof.
  induction l as [| x l IH].
  - left. intros i. unfold get. destruct (i <? 0); [reflexivity |].
    now destruct (Z.to_nat i).
  - destruct (isSelectableChoice (Some x)) eqn:Ex.
    + right. exists 0. exact Ex.
    + destruct IH as [IH | [i Hi]].
      * left. apply no_selectable_iff. intros y [<- | Hy]; [exact Ex |].
        now apply (proj1 (no_selectable_iff l) IH).
      * right. exists (i + 1).
        pose proof (selectable_range _ _ Hi) as Hr.
        replace (i + 1) with (Z.of_nat (S (Z.to_nat i))) by lia.
        rewrite get_nat. simpl.
        rewrite <- get_nat. now rewrite Z2Nat.id by lia.
Qed.

(** [findIndex] returns -1 when the predicate rejects every element, and
    otherwise the position of the first element it accepts. *)
Lemma findIndex_from_spec {A : Type} (p : A -> bool) (l : list A) :
  forall i, 0 <= i ->
    (findIndex_from p l i = -1 /\ forall x, In x l -> p x = false) \/
    (exists k x,
        findIndex_from p l i = i + Z.of_nat k /\
        nth_error l k = Some x /\ p x = true /\
        forall j y, (j < k)%nat -> nth_error l j = Some y -> p y = false).
Proof.
  induction l as [| a l IH]; intros i Hi; simpl.
  - left. split; [reflexivity | intros x []].
  - destruct (p a) eqn:Ea.
    + right. exists O, a. repeat split; try assumption; [lia |].
      intros j y Hj. lia.
    + destruct (IH (i + 1)) as [[E Hall] | [k [x [E [Hk [Hx Hbefore]]]]]]; [lia | |].
      * left. split; [exact E |]. intros x [<- | Hin]; auto.
      * right. exists (S k), x. repeat split; try assumption; [lia |].
        intros [| j] y Hj Hy; simpl in Hy.
        -- congruence.
        -- apply (Hbefore j); [lia | exact Hy].
Qed.

Lemma initialCursorPosition_spec (l : list Entry) :
  (initialCursorPosition l = Thrown (Error no_selectable_message) /\
   forall i, isSelectableChoice (get l i) = false) \/
  (exists start,
      initialCursorPosition l = Returned start /\
      isSelectableChoice (get l start) = true /\
      forall j, 0 <= j < start -> isSelectableChoice (get l j) = false).
Proof.
  unfold initialCursorPosition, findIndex.
  destruct (findIndex_from_spec (fun e => isSelectableChoice (Some e)) l 0)
    as [[E Hall] | [k [x [E [Hk [Hx Hbefore]]]]]]; [lia | |].
  - left. rewrite E. simpl. split; [reflexivity |].
    now apply no_selectable_iff.
  - right. rewrite E. exists (Z.of_nat k).
    destruct (Z.ltb_spec (0 + Z.of_nat k) 0) as [H | H]; [lia |].
    split; [reflexivity |]. split.
    + now rewrite get_nat, Hk.
    + intros j Hj.
      replace j with (Z.of_nat (Z.to_nat j)) by lia.
      rewrite get_nat.
      destruct (nth_error l (Z.to_nat j)) as [y |] eqn:Ey; [| reflexivity].
      apply (Hbefore (Z.to_nat j)); [lia | exact Ey].
Qed.

(** ** Facts about the search loop *)

Lemma searchLoop_done (fuel : nat) (l : list Entry) (offset pos : Z)
    (so : option Entry) :
  isSelectableChoice so = true -> searchLoop fuel l offset pos so = Returned pos.
Proof. intros H. destruct fuel; simpl; now rewrite H. Qed.

Lemma searchLoop_turn (fuel : nat) (l : list Entry) (offset pos : Z)
    (so : option Entry) :
  isSelectableChoice so = false ->
  searchLoop (S fuel) l offset pos so =
  searchLoop fuel l offset (Z.rem (pos + offset + length l) (length l))
    (get l (Z.rem (pos + offset + length l) (length l))).
Proof. intros H. simpl. now rewrite H. Qed.

(** Whatever the loop returns after at least one turn is selectable. *)
Lemma searchLoop_selectable (l : list Entry) (offset : Z) :
  forall fuel pos so p,
    isSelectableChoice so = false ->
    searchLoop fuel l offset pos so = Returned p ->
    isSelectableChoice (get l p) = true.
Proof.
  induction fuel as [| fuel IH]; intros pos so p Hso H.
  - simpl in H. rewrite Hso in H. discriminate.
  - rewrite searchLoop_turn in H by exact Hso.
    set (pos' := Z.rem (pos + offset + length l) (length l)) in *.
    destruct (isSelectableChoice (get l pos')) eqn:E.
    + rewrite searchLoop_done in H by exact E. now inversion H; subst.
    + now apply IH with pos' (get l pos').
Qed.

(** The loop never throws. *)
Lemma searchLoop_no_throw (l : list Entry) (offset : Z) :
  forall fuel pos so e, searchLoop fuel l offset pos so <> Thrown e.
Proof.
  induction fuel as [| fuel IH]; intros pos so e; simpl;
    destruct (isSelectableChoice so); try discriminate.
  apply IH.
Qed.

Lemma rem_turn (len pos offset : Z) :
  0 <= pos < len -> offset = 1 \/ offset = -1 ->
  Z.rem (pos + offset + len) len = (pos + offset) mod len.
Proof.
  intros Hpos Hoff.
  rewrite Z.rem_mod_nonneg by lia.
  replace (pos + offset + len) with (pos + offset + 1 * len) by lia.
  apply Z.mod_add. lia.
Qed.

Lemma candidate_range (l : list Entry) (cursor offset k : Z) :
  0 < length l -> 0 <= candidate l cursor offset k < length l.
Proof. intros H. unfold candidate. apply Z.mod_pos_bound. exact H. Qed.

Lemma candidate_0 (l : list Entry) (cursor offset : Z) :
  0 <= cursor < length l -> candidate l cursor offset 0 = cursor.
Proof.
  intros H. unfold candidate. rewrite Z.mul_0_l, Z.add_0_r.
  now apply Z.mod_small.
Qed.

Lemma candidate_succ (l : list Entry) (cursor offset k : Z) :
  0 < length l ->
  (candidate l cursor offset k + offset) mod length l =
  candidate l cursor offset (k + 1).
Proof.
  intros H. unfold candidate.
  rewrite Z.add_mod_idemp_l by lia. f_equal. lia.
Qed.

(** Every index of the list is a candidate within one round. *)
Lemma candidate_reaches (l : list Entry) (cursor offset t : Z) :
  0 <= cursor < length l -> 0 <= t < length l ->
  offset = 1 \/ offset = -1 ->
  exists k, 1 <= k <= length l /\ candidate l cursor offset k = t.
Proof.
  intros Hc Ht Hoff. unfold candidate.
  set (d := ((t - cursor) * offset) mod length l).
  assert (Hd : 0 <= d < length l) by (apply Z.mod_pos_bound; lia).
  assert (Hmod : (cursor + d * offset) mod length l = t).
  { unfold d. rewrite <- (Z.mod_small t (length l)) at 2 by lia.
    rewrite <- Z.add_mod_idemp_r by lia.
    rewrite Z.mul_mod_idemp_l by lia.
    rewrite Z.add_mod_idemp_r by lia.
    f_equal. destruct Hoff as [-> | ->]; lia. }
  destruct (Z.eq_dec d 0) as [E | E].
  - exists (length l). split; [lia |].
    rewrite E in Hmod. rewrite <- Hmod.
    replace (cursor + length l * offset) with (cursor + 0 * offset + offset * length l) by lia.
    apply Z.mod_add. lia.
  - exists d. split; [lia | exact Hmod].
Qed.

(** From the candidate number [k], with a selectable candidate among the
    next [n], the loop returns the first of them, which it reaches within
    [n] turns. *)
Lemma searchLoop_first (l : list Entry) (cursor offset : Z) :
  0 < length l -> offset = 1 \/ offset = -1 ->
  forall (n : nat) (k : Z) (so : option Entry),
    isSelectableChoice so = false ->
    (exists j, k < j <= k + Z.of_nat n /\
       isSelectableChoice (get l (candidate l cursor offset j)) = true) ->
    exists j, k < j <= k + Z.of_nat n /\
      isSelectableChoice (get l (candidate l cursor offset j)) = true /\
      (forall i, k < i < j ->
         isSelectableChoice (get l (candidate l cursor offset i)) = false) /\
      forall fuel, (n <= fuel)%nat ->
        searchLoop fuel l offset (candidate l cursor offset k) so =
        Returned (candidate l cursor offset j).
Proof.
  intros Hlen Hoff.
  induction n as [| n IH]; intros k so Hso [j [Hj Hsel]]; [lia |].
  assert (Hturn : Z.rem (candidate l cursor offset k + offset + length l) (length l)
                  = candidate l cursor offset (k + 1)).
  { rewrite rem_turn by (auto using candidate_range).
    now apply candidate_succ. }
  destruct (isSelectableChoice (get l (candidate l cursor offset (k + 1)))) eqn:E.
  - exists (k + 1). split; [lia |]. split; [exact E |]. split; [intros i Hi; lia |].
    intros [| fuel] Hfuel; [lia |].
    rewrite searchLoop_turn by exact Hso. rewrite Hturn.
    now apply searchLoop_done.
  - assert (Hj' : k + 1 < j <= k + 1 + Z.of_nat n).
    { destruct (Z.eq_dec j (k + 1)) as [-> | Hne]; [congruence | lia]. }
    destruct (IH (k + 1) (get l (candidate l cursor offset (k + 1))) E
                 (ex_intro _ j (conj Hj' Hsel)))
      as [j0 [Hj0 [Hsel0 [Hbefore Hrun]]]].
    exists j0. split; [lia |]. split; [exact Hsel0 |]. split.
    + intros i Hi. destruct (Z.eq_dec i (k + 1)) as [-> | Hne]; [exact E |].
      apply Hbefore. lia.
    + intros [| fuel] Hfuel; [lia |].
      rewrite searchLoop_turn by exact Hso. rewrite Hturn.
      apply Hrun. lia.
Qed.

(** The directional search from a cursor inside the list: it returns the
    first selectable candidate within as many turns as the list is long. *)
Lemma searchLoop_in_range (l : list Entry) (cursor offset : Z) (so : option Entry) :
  0 <= cursor < length l -> offset = 1 \/ offset = -1 ->
  isSelectableChoice so = false ->
  (exists i, isSelectableChoice (get l i) = true) ->
  exists p, first_reached l cursor offset p /\
    forall fuel, (List.length l <= fuel)%nat ->
      searchLoop fuel l offset cursor so = Returned p.
Proof.
  intros Hc Hoff Hso [t Ht].
  assert (Hlen : 0 < length l) by lia.
  destruct (candidate_reaches l cursor offset t Hc (selectable_range _ _ Ht) Hoff)
    as [k [Hk Hkt]].
  destruct (searchLoop_first l cursor offset Hlen Hoff (List.length l) 0 so Hso)
    as [j [Hj [Hsel [Hbefore Hrun]]]].
  { exists k. unfold length in Hk. split; [lia |]. now rewrite Hkt. }
  exists (candidate l cursor offset j). split.
  - exists j. unfold length. repeat split; try lia; try assumption.
    intros i Hi. apply Hbefore. lia.
  - intros fuel Hfuel. rewrite <- (candidate_0 l cursor offset Hc) at 1.
    now apply Hrun.
Qed.

(** The first reached index is unique. *)
Lemma first_reached_unique (l : list Entry) (cursor offset p q : Z) :
  first_reached l cursor offset p -> first_reached l cursor offset q -> p = q.
Proof.
  intros [k [Hk [-> [Hsel Hbefore]]]] [k' [Hk' [-> [Hsel' Hbefore']]]].
  destruct (Z.lt_trichotomy k k') as [H | [-> | H]]; [| reflexivity |].
  - rewrite Hbefore' in Hsel by lia. discriminate.
  - rewrite Hbefore in Hsel' by lia. discriminate.
Qed.

(** The search from any integer: after at most two turns the cursor is
    inside the list. *)
Lemma searchLoop_total (l : list Entry) (cursor offset : Z) :
  offset = 1 \/ offset = -1 ->
  (exists i, isSelectableChoice (get l i) = true) ->
  exists p, isSelectableChoice (get l p) = true /\
    forall fuel, (List.length l + 2 <= fuel)%nat ->
      searchLoop fuel l offset cursor None = Returned p.
Proof.
  intros Hoff Hex.
  assert (Hlen : 0 < length l).
  { destruct Hex as [t Ht]. pose proof (selectable_range _ _ Ht). lia. }
  assert (Hin : forall pos, 0 <= pos < length l ->
            exists p, isSelectableChoice (get l p) = true /\
              forall fuel, (List.length l <= fuel)%nat ->
                searchLoop fuel l offset pos (get l pos) = Returned p).
  { intros pos Hpos.
    destruct (isSelectableChoice (get l pos)) eqn:E.
    - exists pos. split; [exact E |]. intros fuel _. now apply searchLoop_done.
    - destruct (searchLoop_in_range l pos offset (get l pos) Hpos Hoff E Hex)
        as [p [[k [_ [_ [Hsel _]]]] Hrun]].
      exists p. split; [exact Hsel | exact Hrun]. }
  set (p1 := Z.rem (cursor + offset + length l) (length l)).
  destruct (Z_lt_dec p1 0) as [Hneg | Hpos].
  - set (p2 := Z.rem (p1 + offset + length l) (length l)).
    assert (Hp2 : 0 <= p2 < length l).
    { subst p2 p1. destruct Hoff as [-> | ->];
        Z.to_euclidean_division_equations; lia. }
    destruct (Hin p2 Hp2) as [p [Hsel Hrun]].
    exists p. split; [exact Hsel |].
    intros [| [| fuel]] Hfuel; try lia.
    rewrite searchLoop_turn by reflexivity. fold p1.
    rewrite (get_negative l p1 Hneg).
    rewrite searchLoop_turn by reflexivity. fold p2.
    apply Hrun. lia.
  - assert (Hp1 : 0 <= p1 < length l).
    { subst p1. Z.to_euclidean_division_equations. lia. }
    destruct (Hin p1 Hp1) as [p [Hsel Hrun]].
    exists p. split; [exact Hsel |].
    intros [| fuel] Hfuel; try lia.
    rewrite searchLoop_turn by reflexivity. fold p1.
    apply Hrun. lia.
Qed.

(** Without a selectable entry the loop runs for as long as it is let. *)
Lemma searchLoop_diverges (l : list Entry) (offset : Z) :
  (forall i, isSelectableChoice (get l i) = false) ->
  forall fuel pos so, isSelectableChoice so = false ->
    searchLoop fuel l offset pos so = OutOfFuel.
Proof.
  intros Hnone. induction fuel as [| fuel IH]; intros pos so Hso.
  - simpl. now rewrite Hso.
  - rewrite searchLoop_turn by exact Hso. apply IH. apply Hnone.
Qed.

(** ** The cursor invariant *)

Lemma handler_keeps_selectable (config : SelectConfig) (fuel : nat)
    (st st' : PromptState) (key : KeypressEvent) (c : Completion) :
  isSelectableChoice (get (choices config) (cursorPosition st)) = true ->
  handler fuel config st key = Returned (st', c) ->
  isSelectableChoice (get (choices config) (cursorPosition st')) = true.
Proof.
  intros Hst H. unfold handler in H.
  destruct key as [| | | n |].
  - destruct (get (choices config) (cursorPosition st)) eqn:E; [| discriminate].
    inversion H; subst. simpl. now rewrite E.
  - destruct (searchLoop fuel (choices config) (-1) (cursorPosition st) None)
      as [p | e |] eqn:E; try discriminate.
    inversion H; subst. simpl.
    now apply searchLoop_selectable with (-1) fuel (cursorPosition st) (@None Entry).
  - destruct (searchLoop fuel (choices config) 1 (cursorPosition st) None)
      as [p | e |] eqn:E; try discriminate.
    inversion H; subst. simpl.
    now apply searchLoop_selectable with 1 fuel (cursorPosition st) (@None Entry).
  - destruct (isSelectableChoice (get (choices config) (n - 1))) eqn:E;
      simpl in H; inversion H; subst; assumption.
  - inversion H; subst. exact Hst.
Qed.

Lemma reachable_selectable (config : SelectConfig) (st : PromptState) :
  reachable config st ->
  isSelectableChoice (get (choices config) (cursorPosition st)) = true.
Proof.
  induction 1 as [start Hinit | st key fuel st' c _ IH Hstep].
  - destruct (initialCursorPosition_spec (choices config))
      as [[E _] | [start' [E [Hsel _]]]]; rewrite E in Hinit.
    + discriminate.
    + inversion Hinit; subst. exact Hsel.
  - now apply handler_keeps_selectable with fuel st key c.
Qed.

Lemma reachable_choice (config : SelectConfig) (st : PromptState) :
  reachable config st ->
  exists c, get (choices config) (cursorPosition st) = Some (IsChoice c) /\
            disabled_falsy c.
Proof.
  intros H. apply reachable_selectable in H.
  apply selectable_choice in H. destruct H as [c [E Hd]].
  exists c. split; [exact E |]. now apply truthy_disabled_false.
Qed.

(** C1, as the claim words it, fails: with a choice whose [disabled] is
    the empty string, the initial state is pending and its cursor is on a
    choice whose [disabled] field is present and is not [false]. *)
Lemma cursor_on_blank_reason :
  exists st,
    reachable blank_reason_config st /\ status st = Pending /\
    ~ (exists c,
          get (choices blank_reason_config) (cursorPosition st) = Some (IsChoice c) /\
          disabled_absent_or_false c).
Proof.
  exists {| status := Pending; cursorPosition := 0 |}.
  split; [apply reachable_init; reflexivity |].
  split; [reflexivity |].
  intros [c [E [H | H]]]; inversion E; subst; discriminate.
Qed.

(** C1 (amended): in every reachable state with status [Pending] -- after
    initialization and after any sequence of keypresses -- [cursorPosition]
    indexes an entry of [choices] that is a [Choice], not a separator, and
    whose [disabled] field is falsy: absent, [false] or the empty string. *)
Theorem cursor_on_enabled_choice (config : SelectConfig) (st : PromptState) :
  reachable config st -> status st = Pending ->
  0 <= cursorPosition st < length (choices config) /\
  exists c,
    get (choices config) (cursorPosition st) = Some (IsChoice c) /\
    disabled_falsy c.
Proof.
  intros H _. destruct (reachable_choice config st H) as [c [E Hd]].
  split; [now apply get_Some_range with (IsChoice c) |].
  now exists c.
Qed.

Lemma cursor_on_enabled_choice_witness :
  0 <= 1 < length (choices example2) /\
  exists c,
    get (choices example2) 1 = Some (IsChoice c) /\ disabled_falsy c.
Proof.
  apply (cursor_on_enabled_choice example2
           {| status := Pending; cursorPosition := 1 |}).
  - apply reachable_init. reflexivity.
  - reflexivity.
Defined.

(** ** Confirmation *)

(** C2: a confirm keypress in a reachable pending state resolves the
    prompt with exactly the [value] field of the choice under the cursor:
    [done] is called once, with that string. *)
Theorem confirm_resolves_value (config : SelectConfig) (st : PromptState)
    (fuel : nat) :
  reachable config st -> status st = Pending ->
  exists c,
    get (choices config) (cursorPosition st) = Some (IsChoice c) /\
    handler fuel config st EnterKey =
    Returned ({| status := Done; cursorPosition := cursorPosition st |},
              DoneWith (Some (value c))).
Proof.
  intros H _. destruct (reachable_choice config st H) as [c [E _]].
  exists c. split; [exact E |].
  unfold handler. now rewrite E.
Qed.

Lemma confirm_resolves_value_witness :
  exists c,
    get (choices example5) 2 = Some (IsChoice c) /\
    handler 0 example5 {| status := Pending; cursorPosition := 2 |} EnterKey =
    Returned ({| status := Done; cursorPosition := 2 |}, DoneWith (Some (value c))).
Proof.
  apply (confirm_resolves_value example5
           {| status := Pending; cursorPosition := 2 |} 0).
  - apply reachable_keypress
      with {| status := Pending; cursorPosition := 0 |} (NumberKey 3) O NotCalled.
    + apply reachable_init. reflexivity.
    + reflexivity.
  - reflexivity.
Defined.

(** ** Numeric jump *)

(** C5: a number key [n] sets [cursorPosition] to exactly [n - 1] when the
    entry at that index exists and is selectable, leaving [status] as it
    is; when that entry is absent, a separator or a disabled choice, the
    handler returns without an error and the state is unchanged. *)
Theorem numeric_jump (config : SelectConfig) (st : PromptState) (fuel : nat)
    (n : Z) :
  status st = Pending ->
  (isSelectableChoice (get (choices config) (n - 1)) = true ->
   handler fuel config st (NumberKey n) =
   Returned ({| status := Pending; cursorPosition := n - 1 |}, NotCalled)) /\
  (get (choices config) (n - 1) = None \/
   (exists s, get (choices config) (n - 1) = Some (IsSeparator s)) \/
   (exists c, get (choices config) (n - 1) = Some (IsChoice c) /\
              truthy_disabled (disabled c) = true) ->
   handler fuel config st (NumberKey n) = Returned (st, NotCalled)).
Proof.
  intros Hst. unfold handler. split.
  - intros H. rewrite H. simpl. unfold setCursorPos. now rewrite Hst.
  - intros [E | [[s E] | [c [E Hd]]]]; rewrite E; simpl; try reflexivity.
    now rewrite Hd.
Qed.

Lemma numeric_jump_witness :
  handler 0 example3 {| status := Pending; cursorPosition := 0 |} (NumberKey 2) =
  Returned ({| status := Pending; cursorPosition := 2 - 1 |}, NotCalled) /\
  handler 0 example3 {| status := Pending; cursorPosition := 0 |} (NumberKey 9) =
  Returned ({| status := Pending; cursorPosition := 0 |}, NotCalled).
Proof.
  split.
  - apply (numeric_jump example3 {| status := Pending; cursorPosition := 0 |} 0 2).
    + reflexivity.
    + reflexivity.
  - apply (numeric_jump example3 {| status := Pending; cursorPosition := 0 |} 0 9).
    + reflexivity.
    + left. reflexivity.
Defined.

(** ** Directional step *)

Lemma handler_directional (fuel : nat) (config : SelectConfig)
    (st : PromptState) (key : KeypressEvent) :
  isDirectional key = true ->
  handler fuel config st key =
  match searchLoop fuel (choices config) (step_offset key) (cursorPosition st) None with
  | Returned p => Returned (setCursorPos st p, NotCalled)
  | Thrown e => Thrown e
  | OutOfFuel => OutOfFuel
  end.
Proof. destruct key; simpl; try discriminate; reflexivity. Qed.

Lemma step_offset_unit (key : KeypressEvent) :
  step_offset key = 1 \/ step_offset key = -1.
Proof. destruct key; simpl; auto. Qed.

Lemma setCursorPos_same (st : PromptState) :
  setCursorPos st (cursorPosition st) = st.
Proof. now destruct st. Qed.

(** C3: with at least one selectable entry and the cursor inside the
    list, an up key (offset -1) or a down key (offset +1) moves the cursor
    to the first index, among those reached by repeatedly adding the
    offset modulo the list length, that the selectability predicate
    accepts; and when the entry under the cursor is the only selectable
    one, any sequence of up and down keys leaves the state as it is. *)
Theorem directional_step (config : SelectConfig) (st : PromptState)
    (key : KeypressEvent) :
  (exists i, isSelectableChoice (get (choices config) i) = true) ->
  0 <= cursorPosition st < length (choices config) ->
  isDirectional key = true ->
  (exists p,
      first_reached (choices config) (cursorPosition st) (step_offset key) p /\
      forall fuel, (List.length (choices config) <= fuel)%nat ->
        handler fuel config st key =
        Returned ({| status := status st; cursorPosition := p |}, NotCalled)) /\
  ((forall j, isSelectableChoice (get (choices config) j) = true ->
              j = cursorPosition st) ->
   forall keys fuel,
     forallb isDirectional keys = true ->
     (List.length (choices config) <= fuel)%nat ->
     dispatch fuel config st keys =
     Returned (st, List.map (fun _ => NotCalled) keys)).
Proof.
  intros Hex Hc Hkey. split.
  - destruct (searchLoop_in_range (choices config) (cursorPosition st)
                (step_offset key) None Hc (step_offset_unit key) eq_refl Hex)
      as [p [Hfirst Hrun]].
    exists p. split; [exact Hfirst |].
    intros fuel Hfuel. rewrite handler_directional by exact Hkey.
    now rewrite Hrun.
  - intros Honly keys fuel Hkeys Hfuel.
    induction keys as [| k keys IH]; [reflexivity |].
    simpl in Hkeys. apply andb_true_iff in Hkeys. destruct Hkeys as [Hk Hrest].
    simpl. rewrite handler_directional by exact Hk.
    destruct (searchLoop_in_range (choices config) (cursorPosition st)
                (step_offset k) None Hc (step_offset_unit k) eq_refl Hex)
      as [p [[j [_ [_ [Hsel _]]]] Hrun]].
    rewrite Hrun by exact Hfuel.
    rewrite (Honly p Hsel), setCursorPos_same.
    now rewrite IH.
Qed.

Lemma directional_step_witness :
  (exists p,
      first_reached (choices example1) 0 (step_offset DownKey) p /\
      forall fuel, (List.length (choices example1) <= fuel)%nat ->
        handler fuel example1 {| status := Pending; cursorPosition := 0 |} DownKey =
        Returned ({| status := Pending; cursorPosition := p |}, NotCalled)) /\
  forall keys fuel,
    forallb isDirectional keys = true ->
    (List.length (choices lonely) <= fuel)%nat ->
    dispatch fuel lonely {| status := Pending; cursorPosition := 1 |} keys =
    Returned ({| status := Pending; cursorPosition := 1 |},
              List.map (fun _ => NotCalled) keys).
Proof.
  split.
  - apply (directional_step example1
             {| status := Pending; cursorPosition := 0 |} DownKey).
    + exists 0. reflexivity.
    + simpl. unfold length. simpl. lia.
    + reflexivity.
  - apply (directional_step lonely
             {| status := Pending; cursorPosition := 1 |} UpKey).
    + exists 1. reflexivity.
    + simpl. unfold length. simpl. lia.
    + reflexivity.
    + intros j Hj. pose proof (selectable_range _ _ Hj) as Hr.
      unfold length in Hr. simpl in Hr. simpl.
      assert (Hcases : j = 0 \/ j = 1 \/ j = 2) by lia.
      destruct Hcases as [-> | [-> | ->]]; [discriminate | reflexivity | discriminate].
Defined.

(** Example 1 of the specification: down from A lands on C, down again
    wraps to A. *)
Example example1_down_down :
  dispatch 4 example1 {| status := Pending; cursorPosition := 0 |} [DownKey] =
  Returned ({| status := Pending; cursorPosition := 3 |}, [NotCalled]) /\
  dispatch 4 example1 {| status := Pending; cursorPosition := 0 |} [DownKey; DownKey] =
  Returned ({| status := Pending; cursorPosition := 0 |}, [NotCalled; NotCalled]).
Proof. split; reflexivity. Qed.

(** C4: with at least one selectable entry, the search of a directional
    step terminates from any cursor -- within two turns more than the list
    is long, and within as many turns as the list is long when the cursor
    is inside the list -- and the index it returns is selectable, however
    many disabled entries or separators lie in between. *)
Theorem directional_search_terminates (config : SelectConfig)
    (st : PromptState) (key : KeypressEvent) :
  (exists i, isSelectableChoice (get (choices config) i) = true) ->
  isDirectional key = true ->
  exists p,
    isSelectableChoice (get (choices config) p) = true /\
    (forall fuel, (List.length (choices config) + 2 <= fuel)%nat ->
       searchLoop fuel (choices config) (step_offset key) (cursorPosition st) None =
       Returned p /\
       handler fuel config st key =
       Returned ({| status := status st; cursorPosition := p |}, NotCalled)) /\
    (0 <= cursorPosition st < length (choices config) ->
     forall fuel, (List.length (choices config) <= fuel)%nat ->
       searchLoop fuel (choices config) (step_offset key) (cursorPosition st) None =
       Returned p).
Proof.
  intros Hex Hkey.
  destruct (searchLoop_total (choices config) (cursorPosition st)
              (step_offset key) (step_offset_unit key) Hex) as [p [Hsel Hrun]].
  exists p. split; [exact Hsel |]. split.
  - intros fuel Hfuel. split; [now apply Hrun |].
    rewrite handler_directional by exact Hkey. now rewrite Hrun.
  - intros Hc fuel Hfuel.
    destruct (searchLoop_in_range (choices config) (cursorPosition st)
                (step_offset key) None Hc (step_offset_unit key) eq_refl Hex)
      as [q [_ Hq]].
    rewrite Hq by exact Hfuel. f_equal.
    specialize (Hrun (fuel + 2)%nat). rewrite Hq in Hrun by lia.
    specialize (Hrun ltac:(lia)). congruence.
Qed.

Lemma directional_search_terminates_witness :
  exists p,
    isSelectableChoice (get (choices example1) p) = true /\
    (forall fuel, (List.length (choices example1) + 2 <= fuel)%nat ->
       searchLoop fuel (choices example1) (step_offset UpKey) 0 None = Returned p /\
       handler fuel example1 {| status := Pending; cursorPosition := 0 |} UpKey =
       Returned ({| status := Pending; cursorPosition := p |}, NotCalled)) /\
    (0 <= 0 < length (choices example1) ->
     forall fuel, (List.length (choices example1) <= fuel)%nat ->
       searchLoop fuel (choices example1) (step_offset UpKey) 0 None = Returned p).
Proof.
  apply (directional_search_terminates example1
           {| status := Pending; cursorPosition := 0 |} UpKey).
  - exists 0. reflexivity.
  - reflexivity.
Defined.

(** ** Keypresses after confirmation *)




(** ** Frames *)

Section RendererFacts.

Variables bold dim cyan : string -> string.
Variable pointer : string.
Variable cursorHide : string.
Variable prefix : string.
Variable Paginator : Type.
Variable paginate : Paginator -> string -> Z -> option Z -> string * Paginator.

Local Abbreviation render_ :=
  (render bold dim cyan pointer cursorHide prefix Paginator paginate).
Local Abbreviation renderFrame_ :=
  (renderFrame dim cyan pointer cursorHide prefix Paginator paginate).
Local Abbreviation prompt_ :=
  (prompt bold dim cyan pointer cursorHide prefix Paginator paginate).
Local Abbreviation renderAll_ :=
  (renderAll bold dim cyan pointer cursorHide prefix Paginator paginate).
Local Abbreviation frames_spec_ :=
  (frames_spec bold dim cyan pointer cursorHide prefix Paginator paginate).
Local Abbreviation header_ := (header_spec bold dim).

Lemma renderMessage_header (config : SelectConfig) (first : bool) :
  renderMessage bold dim config first = (header_ config first, false).
Proof. now destruct first. Qed.

Lemma render_unfold (config : SelectConfig) (refs : Refs Paginator)
    (st : PromptState) :
  render_ config refs st =
  (fst (renderFrame_ config (header_ config (firstRender refs))
          (paginator refs) st),
   {| firstRender := false;
      paginator := snd (renderFrame_ config (header_ config (firstRender refs))
                          (paginator refs) st) |}).
Proof.
  unfold render. rewrite renderMessage_header.
  now destruct (renderFrame_ config (header_ config (firstRender refs))
                  (paginator refs) st).
Qed.

Lemma label_of_choice (c : Choice) :
  to_string (or_else (entry_name (IsChoice c)) (entry_value (IsChoice c))) =
  name_unless_empty c.
Proof.
  unfold or_else, name_unless_empty. simpl.
  destruct (name c) as [[| a rest] |]; reflexivity.
Qed.

Lemma line_of_label (c : Choice) : line_of c = name_unless_empty c.
Proof.
  unfold line_of, name_unless_empty.
  destruct (name c) as [[| a rest] |]; reflexivity.
Qed.

Lemma renderFrame_done (config : SelectConfig) (msg : string)
    (pg : Paginator) (st : PromptState) (c : Choice) :
  status st = Done ->
  get (choices config) (cursorPosition st) = Some (IsChoice c) ->
  renderFrame_ config msg pg st =
  (Returned (prefix ++ " " ++ msg ++ " " ++ cyan (name_unless_empty c))%string, pg).
Proof.
  intros Hst E. unfold renderFrame.
  rewrite Hst, E. now rewrite label_of_choice.
Qed.

Lemma renderFrame_pending (config : SelectConfig) (msg : string)
    (pg : Paginator) (st : PromptState) :
  status st = Pending ->
  forall f, fst (renderFrame_ config msg pg st) = Returned f ->
  exists body, f = (body ++ cursorHide)%string.
Proof.
  intros Hst f. unfold renderFrame. rewrite Hst.
  destruct (paginate pg _ (cursorPosition st) (pageSize config)) as [w pg'].
  destruct (get (choices config) (cursorPosition st)) as [e |]; simpl;
    [| discriminate].
  intros H. inversion H; subst.
  set (d := if truthy_field (entry_description e)
            then (newline ++ to_string (entry_description e))%string
            else ""%string).
  exists (prefix ++ " " ++ msg ++ newline ++ w ++ d)%string.
  now rewrite !append_assoc.
Qed.

Lemma renderFrame_pending_returns (config : SelectConfig) (msg : string)
    (pg : Paginator) (st : PromptState) (e : Entry) :
  status st = Pending ->
  get (choices config) (cursorPosition st) = Some e ->
  exists f, fst (renderFrame_ config msg pg st) = Returned f.
Proof.
  intros Hst E. unfold renderFrame. rewrite Hst, E.
  destruct (paginate pg _ (cursorPosition st) (pageSize config)) as [w pg'].
  simpl. eexists. reflexivity.
Qed.

(** C6: the first run of the prompt fails if and only if no entry of
    [choices] is selectable, the empty list included; it then throws the
    configuration error out of the [useState] initializer, before the
    renderer has run (no frame, and the refs untouched); with a
    selectable entry it returns a frame for the pending state whose
    cursor is the index of the first selectable entry in list order. *)
Theorem construction (config : SelectConfig) (refs : Refs Paginator) :
  ((forall st f, fst (prompt_ config None refs) <> Returned (st, f)) <->
   (forall i, isSelectableChoice (get (choices config) i) = false)) /\
  ((forall i, isSelectableChoice (get (choices config) i) = false) ->
   prompt_ config None refs = (Thrown (Error no_selectable_message), refs)) /\
  (choices config = [] ->
   prompt_ config None refs = (Thrown (Error no_selectable_message), refs)) /\
  ((exists i, isSelectableChoice (get (choices config) i) = true) ->
   exists start frame,
     fst (prompt_ config None refs) =
     Returned ({| status := Pending; cursorPosition := start |}, frame) /\
     initialCursorPosition (choices config) = Returned start /\
     isSelectableChoice (get (choices config) start) = true /\
     forall j, 0 <= j < start ->
       isSelectableChoice (get (choices config) j) = false).
Proof.
  assert (Hfail : (forall i, isSelectableChoice (get (choices config) i) = false) ->
            prompt_ config None refs = (Thrown (Error no_selectable_message), refs)).
  { intros Hnone. unfold prompt.
    destruct (initialCursorPosition_spec (choices config))
      as [[E _] | [start [_ [Hsel _]]]].
    - now rewrite E.
    - rewrite Hnone in Hsel. discriminate. }
  assert (Hok : (exists i, isSelectableChoice (get (choices config) i) = true) ->
            exists start frame,
              fst (prompt_ config None refs) =
              Returned ({| status := Pending; cursorPosition := start |}, frame) /\
              initialCursorPosition (choices config) = Returned start /\
              isSelectableChoice (get (choices config) start) = true /\
              forall j, 0 <= j < start ->
                isSelectableChoice (get (choices config) j) = false).
  { intros [i Hi].
    destruct (initialCursorPosition_spec (choices config))
      as [[_ Hnone] | [start [E [Hsel Hbefore]]]].
    - rewrite Hnone in Hi. discriminate.
    - destruct (proj1 (selectable_choice _) Hsel) as [c [Ec _]].
      destruct (renderFrame_pending_returns config
                  (header_ config (firstRender refs)) (paginator refs)
                  {| status := Pending; cursorPosition := start |}
                  (IsChoice c) eq_refl Ec) as [f Hf].
      exists start, f. unfold prompt. rewrite E, render_unfold, Hf.
      repeat split; assumption. }
  split; [| split; [exact Hfail | split; [| exact Hok]]].
  - split.
    + intros Hno. destruct (selectable_dec (choices config)) as [H | H];
        [exact H |].
      destruct (Hok H) as [start [f [E _]]]. now apply Hno in E.
    + intros Hnone st f. rewrite (Hfail Hnone). discriminate.
  - intros Hnil. apply Hfail. intros i. rewrite Hnil. unfold get.
    destruct (i <? 0); [reflexivity |]. now destruct (Z.to_nat i).
Qed.

(** C8 (amended): the frame of a state with status [Done] is the prefix,
    the header and the styled display label of the choice under the
    cursor -- its [name] when that is a non-empty string, its [value]
    otherwise -- joined by single spaces, with no list body (the
    paginator is not consulted) and no cursor-hiding sequence appended;
    every frame of a state with status [Pending] ends with the
    cursor-hiding sequence, and there is such a frame whenever the
    cursor indexes an entry. *)
Theorem frames_by_status (config : SelectConfig) (refs : Refs Paginator)
    (st : PromptState) (c : Choice) :
  get (choices config) (cursorPosition st) = Some (IsChoice c) ->
  (status st = Done ->
   render_ config refs st =
   (Returned (prefix ++ " " ++ header_ config (firstRender refs) ++ " "
              ++ cyan (name_unless_empty c))%string,
    {| firstRender := false; paginator := paginator refs |})) /\
  (status st = Pending ->
   (forall f, fst (render_ config refs st) = Returned f ->
              exists body, f = (body ++ cursorHide)%string) /\
   exists f, fst (render_ config refs st) = Returned f).
Proof.
  intros E. split; intros Hst; rewrite render_unfold.
  - now rewrite (renderFrame_done config _ _ st c Hst E).
  - split.
    + intros f Hf. simpl in Hf.
      now apply (renderFrame_pending config _ _ st Hst f Hf).
    + simpl. now apply renderFrame_pending_returns with (IsChoice c).
Qed.

Lemma renderAll_later (config : SelectConfig) :
  forall states pg k,
    renderAll_ config {| firstRender := false; paginator := pg |} states =
    frames_spec_ config (S k) pg states.
Proof.
  induction states as [| st rest IH]; intros pg k; [reflexivity |].
  simpl. rewrite render_unfold. simpl.
  destruct (renderFrame_ config (bold (message config)) pg st) as [f pg'].
  simpl. f_equal. apply IH.
Qed.

Lemma renderFrame_paginator (config : SelectConfig) (msg : string)
    (pg : Paginator) (st : PromptState) :
  snd (renderFrame_ config msg pg st) =
  match status st with
  | Done => pg
  | Pending => snd (paginated dim cyan pointer Paginator paginate config pg st)
  end.
Proof.
  unfold renderFrame, paginated. destruct (status st).
  - destruct (paginate pg _ (cursorPosition st) (pageSize config)) as [w pg'].
    now destruct (get (choices config) (cursorPosition st)).
  - now destruct (get (choices config) (cursorPosition st)).
Qed.

Lemma renderFrame_rest (config : SelectConfig) (msg : string)
    (pg : Paginator) (st : PromptState) (c : Choice) :
  get (choices config) (cursorPosition st) = Some (IsChoice c) ->
  fst (renderFrame_ config msg pg st) =
  Returned (prefix ++ " " ++ msg
            ++ frame_rest dim cyan pointer cursorHide Paginator paginate
                 config pg st c)%string.
Proof.
  intros E. unfold renderFrame, frame_rest, paginated. rewrite E.
  destruct (status st).
  - destruct (paginate pg _ (cursorPosition st) (pageSize config)) as [w pg'].
    simpl. now destruct (description c) as [[| a rest] |].
  - cbn [fst]. now rewrite label_of_choice.
Qed.

(** The frame of render number [k], for a flag [b] at the start. *)
Lemma renderAll_nth (config : SelectConfig) :
  forall states k b pg st c,
    nth_error states k = Some st ->
    get (choices config) (cursorPosition st) = Some (IsChoice c) ->
    nth_error (renderAll_ config {| firstRender := b; paginator := pg |} states) k =
    Some (Returned
            (prefix ++ " " ++ bold (message config)
             ++ (if Nat.eqb k 0 && b then dim " (Use arrow keys)" else "")
             ++ frame_rest dim cyan pointer cursorHide Paginator paginate config
                  (paginator_after dim cyan pointer Paginator paginate config pg
                     (firstn k states))
                  st c)%string).
Proof.
  induction states as [| st0 rest IH]; intros k b pg st c Hk E.
  - now destruct k.
  - cbn [renderAll]. rewrite render_unfold. cbn [firstRender paginator].
    destruct k as [| k].
    + inversion Hk; subst st0. cbn [nth_error firstn paginator_after Nat.eqb andb].
      rewrite (renderFrame_rest config _ pg st c E).
      destruct b; cbn [header_spec].
      * now rewrite append_assoc.
      * reflexivity.
    + cbn [nth_error firstn paginator_after Nat.eqb andb] in *.
      rewrite renderFrame_paginator.
      rewrite (IH k false _ st c Hk E). now rewrite andb_false_r.
Qed.

(** C9: over the successive renders of one prompt, starting with the
    first-render flag set, the frame of render number [k] (from 0) of a
    state whose cursor is on a choice is the prefix, a space, the styled
    message, the styled hint if and only if [k] is 0, and then the rest
    of the frame, in which neither the flag nor the hint has a part; so
    the hint is appended in the first frame and in no later one, and with
    a non-empty styled hint a frame with it differs from the same frame
    without it. The frames are also those of the renderer given the
    header with the hint for render 0 and without it afterwards, and
    each render leaves the first-render flag cleared. *)
Theorem hint_on_first_render_only (config : SelectConfig) (pg : Paginator)
    (states : list PromptState) :
  (forall k st c,
     nth_error states k = Some st ->
     get (choices config) (cursorPosition st) = Some (IsChoice c) ->
     nth_error
       (renderAll_ config {| firstRender := true; paginator := pg |} states) k =
     Some (Returned
             (prefix ++ " " ++ bold (message config)
              ++ (if Nat.eqb k 0 then dim " (Use arrow keys)" else "")
              ++ frame_rest dim cyan pointer cursorHide Paginator paginate config
                   (paginator_after dim cyan pointer Paginator paginate config pg
                      (firstn k states))
                   st c)%string)) /\
  (dim " (Use arrow keys)" <> ""%string ->
   forall rest : string,
     (prefix ++ " " ++ bold (message config) ++ dim " (Use arrow keys)" ++ rest
      <> prefix ++ " " ++ bold (message config) ++ "" ++ rest)%string) /\
  renderAll_ config {| firstRender := true; paginator := pg |} states =
  frames_spec_ config 0 pg states /\
  header_ config true = (bold (message config) ++ dim " (Use arrow keys)")%string /\
  header_ config false = bold (message config) /\
  forall refs st, firstRender (snd (render_ config refs st)) = false.
Proof.
  split; [| split; [| split; [| split; [reflexivity | split; [reflexivity |]]]]].
  - intros k st c Hk E.
    rewrite (renderAll_nth config states k true pg st c Hk E).
    now rewrite andb_true_r.
  - intros Hhint rest H.
    apply append_cancel_l in H. apply append_cancel_l in H.
    apply append_cancel_l in H. simpl in H.
    now apply append_grows in H.
  - destruct states as [| st rest]; [reflexivity |].
    simpl. rewrite render_unfold. simpl.
    destruct (renderFrame_ config
                (bold (message config) ++ dim " (Use arrow keys)")%string pg st)
      as [f pg'].
    simpl. f_equal. apply renderAll_later.
  - intros refs st. now rewrite render_unfold.
Qed.

(** C10: a confirm keypress changes only [status]: [cursorPosition] is
    as before, so with the cursor on a choice the value passed to [done]
    and the label in the frame of the resulting state are those of that
    choice. *)
Theorem confirm_changes_status_only (config : SelectConfig)
    (refs : Refs Paginator) (st : PromptState) (fuel : nat) :
  (forall st' d, handler fuel config st EnterKey = Returned (st', d) ->
     status st' = Done /\ cursorPosition st' = cursorPosition st) /\
  (forall c, get (choices config) (cursorPosition st) = Some (IsChoice c) ->
     handler fuel config st EnterKey =
     Returned ({| status := Done; cursorPosition := cursorPosition st |},
               DoneWith (Some (value c))) /\
     fst (render_ config refs
            {| status := Done; cursorPosition := cursorPosition st |}) =
     Returned (prefix ++ " " ++ header_ config (firstRender refs) ++ " "
               ++ cyan (name_unless_empty c))%string).
Proof.
  split.
  - intros st' d H. unfold handler in H.
    destruct (get (choices config) (cursorPosition st)); [| discriminate].
    inversion H; subst. split; reflexivity.
  - intros c E. split.
    + unfold handler. now rewrite E.
    + rewrite render_unfold. simpl.
      now rewrite (renderFrame_done config _ _
                     {| status := Done; cursorPosition := cursorPosition st |}
                     c eq_refl E).
Qed.

End RendererFacts.

(** ** The theorems on the frames at the specification's examples *)

Lemma construction_witness :
  plain_prompt example4 None fresh_refs =
  (Thrown (Error no_selectable_message), fresh_refs) /\
  exists start frame,
    fst (plain_prompt example2 None fresh_refs) =
    Returned ({| status := Pending; cursorPosition := start |}, frame) /\
    initialCursorPosition (choices example2) = Returned start /\
    isSelectableChoice (get (choices example2) start) = true /\
    forall j, 0 <= j < start ->
      isSelectableChoice (get (choices example2) j) = false.
Proof.
  unfold plain_prompt. split.
  - apply (construction (fun s => s) (fun s => s) (fun s => s) ">" "<hide>" "?"
             nat plain_paginate example4 fresh_refs).
    reflexivity.
  - apply (construction (fun s => s) (fun s => s) (fun s => s) ">" "<hide>" "?"
             nat plain_paginate example2 fresh_refs).
    exists 1. reflexivity.
Defined.

(** Example 2: the initial cursor is on B, and the first frame carries
    the hint, the list and the cursor-hiding sequence. *)
Example example2_first_frame :
  plain_prompt example2 None fresh_refs =
  (Returned ({| status := Pending; cursorPosition := 1 |},
             ("? Pick (Use arrow keys)" ++ newline ++ "- a (disabled)" ++ newline
              ++ "> b" ++ "<hide>")%string),
   {| firstRender := false; paginator := 1%nat |}).
Proof. reflexivity. Qed.

(** C8, as the claim words it, fails: for a choice whose [name] is the
    empty string the [Done] frame shows the [value], not the [name]. *)
Lemma done_frame_of_blank_name :
  get (choices blank_name_config) 0 = Some (IsChoice blank_name) /\
  fst (plain_render blank_name_config used_refs
         {| status := Done; cursorPosition := 0 |}) = Returned "? Pick c"%string /\
  fst (plain_render blank_name_config used_refs
         {| status := Done; cursorPosition := 0 |}) <>
  Returned ("?" ++ " " ++ header_spec (fun s => s) (fun s => s) blank_name_config
                              (firstRender used_refs)
            ++ " " ++ name_unless_absent blank_name)%string.
Proof.
  split; [reflexivity |]. split; [reflexivity |].
  intros H. vm_compute in H. discriminate H.
Qed.

Lemma frames_by_status_witness :
  plain_render example5 used_refs {| status := Done; cursorPosition := 2 |} =
  (Returned "? Pick Gamma"%string, {| firstRender := false; paginator := 1%nat |}) /\
  exists f,
    fst (plain_render example5 used_refs
           {| status := Pending; cursorPosition := 2 |}) = Returned f /\
    exists body, f = (body ++ "<hide>")%string.
Proof.
  unfold plain_render. split.
  - apply (frames_by_status (fun s => s) (fun s => s) (fun s => s) ">" "<hide>" "?"
             nat plain_paginate example5 used_refs
             {| status := Done; cursorPosition := 2 |} gamma).
    + reflexivity.
    + reflexivity.
  - destruct (frames_by_status (fun s => s) (fun s => s) (fun s => s) ">" "<hide>" "?"
                nat plain_paginate example5 used_refs
                {| status := Pending; cursorPosition := 2 |} gamma eq_refl)
      as [_ Hpending].
    destruct (Hpending eq_refl) as [Hends [f Hf]].
    exists f. split; [exact Hf |]. apply Hends. exact Hf.
Defined.

Lemma confirm_changes_status_only_witness :
  handler 0 example5 {| status := Pending; cursorPosition := 2 |} EnterKey =
  Returned ({| status := Done; cursorPosition := 2 |}, DoneWith (Some "c"%string)) /\
  fst (plain_render example5 used_refs {| status := Done; cursorPosition := 2 |}) =
  Returned "? Pick Gamma"%string.
Proof.
  unfold plain_render.
  apply (proj2 (confirm_changes_status_only (fun s => s) (fun s => s) (fun s => s)
                  ">" "<hide>" "?" nat plain_paginate example5 used_refs
                  {| status := Pending; cursorPosition := 2 |} 0) gamma).
  reflexivity.
Defined.

Lemma hint_on_first_render_only_witness :
  nth_error
    (renderAll (fun s => s) (fun s => s) (fun s => s) ">" "<hide>" "?" nat
       plain_paginate example3 fresh_refs
       [ {| status := Pending; cursorPosition := 0 |};
         {| status := Pending; cursorPosition := 1 |};
         {| status := Done; cursorPosition := 1 |} ]) 0 =
  Some (Returned ("? Pick (Use arrow keys)" ++ newline ++ "> a" ++ newline ++ "  b"
                  ++ newline ++ "  c" ++ "<hide>")%string) /\
  nth_error
    (renderAll (fun s => s) (fun s => s) (fun s => s) ">" "<hide>" "?" nat
       plain_paginate example3 fresh_refs
       [ {| status := Pending; cursorPosition := 0 |};
         {| status := Pending; cursorPosition := 1 |};
         {| status := Done; cursorPosition := 1 |} ]) 2 =
  Some (Returned "? Pick b"%string).
Proof.
  split.
  - apply (proj1 (hint_on_first_render_only (fun s => s) (fun s => s) (fun s => s)
                    ">" "<hide>" "?" nat plain_paginate example3 O
                    [ {| status := Pending; cursorPosition := 0 |};
                      {| status := Pending; cursorPosition := 1 |};
                      {| status := Done; cursorPosition := 1 |} ])
             O {| status := Pending; cursorPosition := 0 |}
             {| value := "a"; name := None; description := None; disabled := None |}).
    + reflexivity.
    + reflexivity.
  - apply (proj1 (hint_on_first_render_only (fun s => s) (fun s => s) (fun s => s)
                    ">" "<hide>" "?" nat plain_paginate example3 O
                    [ {| status := Pending; cursorPosition := 0 |};
                      {| status := Pending; cursorPosition := 1 |};
                      {| status := Done; cursorPosition := 1 |} ])
             2%nat {| status := Done; cursorPosition := 1 |}
             {| value := "b"; name := None; description := None; disabled := None |}).
    + reflexivity.
    + reflexivity.
Defined.

(** The hint is in the first frame and in no later one: the frames of the
    initial state of Example 3, of the state after a down key, and of the
    state after confirming there. *)
Example example3_frames :
  renderAll (fun s => s) (fun s => s) (fun s => s) ">" "<hide>" "?" nat
    plain_paginate example3 fresh_refs
    [ {| status := Pending; cursorPosition := 0 |};
      {| status := Pending; cursorPosition := 1 |};
      {| status := Done; cursorPosition := 1 |} ] =
  [ Returned ("? Pick (Use arrow keys)" ++ newline ++ "> a" ++ newline ++ "  b"
              ++ newline ++ "  c" ++ "<hide>")%string;
    Returned ("? Pick" ++ newline ++ "  a" ++ newline ++ "> b"
              ++ newline ++ "  c" ++ "<hide>")%string;
    Returned "? Pick b"%string ].
Proof. reflexivity. Qed.


(** * Further properties of the handler and of the renderer *)

(** ** What the handler does to [status] and to [done] *)

Lemma handler_status_cases (fuel : nat) (config : SelectConfig)
    (st st' : PromptState) (key : KeypressEvent) (c : Completion) :
  handler fuel config st key = Returned (st', c) ->
  (key = EnterKey /\ status st' = Done /\ called c = true) \/
  (key <> EnterKey /\ status st' = status st /\ c = NotCalled).
Proof.
  intros H. unfold handler in H. destruct key as [| | | n |].
  - left. destruct (get (choices config) (cursorPosition st)); [| discriminate].
    inversion H; subst. repeat split.
  - right. destruct (searchLoop fuel (choices config) (-1) (cursorPosition st) None);
      try discriminate.
    inversion H; subst. repeat split. discriminate.
  - right. destruct (searchLoop fuel (choices config) 1 (cursorPosition st) None);
      try discriminate.
    inversion H; subst. repeat split. discriminate.
  - right. destruct (negb (isSelectableChoice (get (choices config) (n - 1))));
      inversion H; subst; repeat split; discriminate.
  - right. inversion H; subst. repeat split. discriminate.
Qed.

(** Lines 57-84: only the enter branch touches [status] or calls [done].
    A keypress on which the handler returns either is an enter key, sets
    the status to [Done] and calls [done], or is another key, leaves the
    status as it is and does not call [done]. *)
Theorem only_enter_completes (fuel : nat) (config : SelectConfig)
    (st st' : PromptState) (key : KeypressEvent) (c : Completion) :
  handler fuel config st key = Returned (st', c) ->
  (key = EnterKey /\ status st' = Done /\ called c = true) \/
  (key <> EnterKey /\ status st' = status st /\ c = NotCalled).
Proof. apply handler_status_cases. Qed.

Lemma only_enter_completes_witness :
  (DownKey = EnterKey /\
   status {| status := Pending; cursorPosition := 3 |} = Done /\
   called NotCalled = true) \/
  (DownKey <> EnterKey /\
   status {| status := Pending; cursorPosition := 3 |} =
   status {| status := Pending; cursorPosition := 0 |} /\
   NotCalled = NotCalled).
Proof.
  apply (only_enter_completes 4 example1
           {| status := Pending; cursorPosition := 0 |}
           {| status := Pending; cursorPosition := 3 |} DownKey NotCalled).
  reflexivity.
Defined.

(** Over a sequence of keypresses: [done] is called at the enter keys and
    at no other key, and the status at the end is [Done] if the sequence
    has an enter key and the status at the start otherwise. *)
Theorem dispatch_status (fuel : nat) (config : SelectConfig) :
  forall keys st st' cs,
    dispatch fuel config st keys = Returned (st', cs) ->
    List.map called cs = List.map isEnter keys /\
    status st' = if existsb isEnter keys then Done else status st.
Proof.
  induction keys as [| key keys IH]; intros st st' cs H; simpl in H.
  - inversion H; subst. split; reflexivity.
  - destruct (handler fuel config st key) as [[st1 c] | e |] eqn:Eh;
      try discriminate.
    destruct (dispatch fuel config st1 keys) as [[st2 cs2] | e |] eqn:Ed;
      try discriminate.
    inversion H; subst.
    destruct (IH _ _ _ Ed) as [Hcalls Hstatus].
    destruct (handler_status_cases _ _ _ _ _ _ Eh)
      as [[-> [Hdone Hc]] | [Hkey [Hsame ->]]].
    + simpl. rewrite Hc, Hcalls. split; [reflexivity |].
      rewrite Hstatus, Hdone. now destruct (existsb isEnter keys).
    + simpl. rewrite Hcalls, Hstatus, Hsame.
      destruct key; try (split; reflexivity). congruence.
Qed.

Lemma dispatch_status_witness :
  List.map called [NotCalled; DoneWith (Some "b"%string)] =
  List.map isEnter [DownKey; EnterKey] /\
  status {| status := Done; cursorPosition := 1 |} =
  if existsb isEnter [DownKey; EnterKey] then Done
  else status {| status := Pending; cursorPosition := 0 |}.
Proof.
  apply (dispatch_status 3 example3 [DownKey; EnterKey]
           {| status := Pending; cursorPosition := 0 |}
           {| status := Done; cursorPosition := 1 |}
           [NotCalled; DoneWith (Some "b"%string)]).
  reflexivity.
Defined.

(** Lines 58-60 with lines 33-35 and 45-52: whatever a prompt passes to
    [done] is the [value] of a choice that is in the list and whose
    [disabled] is falsy; never [undefined], a separator's text or the
    value of a disabled choice. *)
Theorem done_with_enabled_value (fuel : nat) (config : SelectConfig)
    (st st' : PromptState) (key : KeypressEvent) (v : option string) :
  reachable config st ->
  handler fuel config st key = Returned (st', DoneWith v) ->
  exists c,
    In (IsChoice c) (choices config) /\ v = Some (value c) /\
    isSelectableChoice (Some (IsChoice c)) = true.
Proof.
  intros Hreach H.
  pose proof (reachable_selectable _ _ Hreach) as Hsel.
  destruct (proj1 (selectable_choice _) Hsel) as [c [E Hd]].
  destruct (handler_status_cases _ _ _ _ _ _ H) as [[-> _] | [_ [_ Hc]]];
    [| discriminate].
  unfold handler in H. rewrite E in H. inversion H; subst.
  exists c. split; [| split; [reflexivity |]].
  - unfold get in E. destruct (cursorPosition st <? 0); [discriminate |].
    now apply nth_error_In in E.
  - simpl. now rewrite Hd.
Qed.

Lemma done_with_enabled_value_witness :
  exists c,
    In (IsChoice c) (choices example2) /\ Some "b"%string = Some (value c) /\
    isSelectableChoice (Some (IsChoice c)) = true.
Proof.
  apply (done_with_enabled_value 0 example2
           {| status := Pending; cursorPosition := 1 |}
           {| status := Done; cursorPosition := 1 |} EnterKey (Some "b"%string)).
  - apply reachable_init. reflexivity.
  - reflexivity.
Defined.

(** Lines 73-82 then 58-60: a number key [n] on a selectable entry
    followed by an enter key resolves the prompt with the value of entry
    [n - 1], from any state. *)
Theorem digit_then_enter (fuel : nat) (config : SelectConfig)
    (st : PromptState) (n : Z) (c : Choice) :
  get (choices config) (n - 1) = Some (IsChoice c) ->
  truthy_disabled (disabled c) = false ->
  dispatch fuel config st [NumberKey n; EnterKey] =
  Returned ({| status := Done; cursorPosition := n - 1 |},
            [NotCalled; DoneWith (Some (value c))]).
Proof.
  intros E Hd. unfold dispatch, handler. cbn [cursorPosition setCursorPos].
  rewrite E. simpl. rewrite Hd. simpl. now rewrite E.
Qed.

Lemma digit_then_enter_witness :
  dispatch 0 example5 {| status := Pending; cursorPosition := 0 |}
    [NumberKey 3; EnterKey] =
  Returned ({| status := Done; cursorPosition := 3 - 1 |},
            [NotCalled; DoneWith (Some (value gamma))]).
Proof.
  apply (digit_then_enter 0 example5
           {| status := Pending; cursorPosition := 0 |} 3 gamma).
  - reflexivity.
  - reflexivity.
Defined.

(** Lines 66-70: when no entry is selectable the loop of a directional
    key never ends: whatever the number of turns it is given, the handler
    has not returned. Only the check of the initializer (lines 47-49)
    keeps a prompt out of this loop. *)
Theorem directional_step_diverges (config : SelectConfig) (st : PromptState)
    (key : KeypressEvent) :
  (forall i, isSelectableChoice (get (choices config) i) = false) ->
  isDirectional key = true ->
  forall fuel, handler fuel config st key = OutOfFuel.
Proof.
  intros Hnone Hkey fuel. rewrite handler_directional by exact Hkey.
  now rewrite (searchLoop_diverges _ _ Hnone fuel (cursorPosition st) None eq_refl).
Qed.

Lemma directional_step_diverges_witness :
  handler 1000 nothing_selectable {| status := Pending; cursorPosition := 0 |}
    DownKey = OutOfFuel.
Proof.
  refine (directional_step_diverges nothing_selectable
            {| status := Pending; cursorPosition := 0 |} DownKey _ _ 1000%nat).
  - intros i. destruct (get (choices nothing_selectable) i) as [e |] eqn:E;
      [| reflexivity].
    pose proof (get_Some_range _ _ _ E) as Hr. unfold length in Hr. simpl in Hr.
    assert (Hcases : i = 0 \/ i = 1 \/ i = 2) by lia.
    destruct Hcases as [-> | [-> | ->]]; inversion E; reflexivity.
  - reflexivity.
Defined.

(** ** Moving the cursor with the arrow keys *)

Lemma step_offset_opposite (key : KeypressEvent) :
  isDirectional key = true ->
  isDirectional (opposite key) = true /\
  step_offset (opposite key) = - step_offset key.
Proof. destruct key; simpl; try discriminate; intros _; split; reflexivity. Qed.

Lemma candidate_shift (l : list Entry) (cursor offset k j : Z) :
  0 < length l ->
  candidate l (candidate l cursor offset k) offset j =
  candidate l cursor offset (k + j).
Proof.
  intros H. unfold candidate.
  rewrite Z.add_mod_idemp_l by lia. f_equal. lia.
Qed.

Lemma candidate_shift_back (l : list Entry) (cursor offset k j : Z) :
  0 < length l ->
  candidate l (candidate l cursor offset k) (- offset) j =
  candidate l cursor offset (k - j).
Proof.
  intros H. unfold candidate.
  rewrite Z.add_mod_idemp_l by lia. f_equal. lia.
Qed.

Lemma candidate_elsewhere (l : list Entry) (cursor offset k : Z) :
  0 <= cursor < length l -> offset = 1 \/ offset = -1 ->
  0 < k < length l ->
  candidate l cursor offset k <> cursor.
Proof.
  intros Hc Hoff Hk. unfold candidate. intros H.
  destruct Hoff as [-> | ->].
  - destruct (Z_lt_dec (cursor + k * 1) (length l)) as [Hlt | Hge].
    + rewrite Z.mod_small in H by lia. lia.
    + replace (cursor + k * 1) with (cursor + k - length l + 1 * length l) in H
        by lia.
      rewrite Z.mod_add in H by lia. rewrite Z.mod_small in H by lia. lia.
  - destruct (Z_lt_dec (cursor + k * -1) 0) as [Hlt | Hge].
    + replace (cursor + k * -1) with (cursor - k + length l + (-1) * length l) in H
        by lia.
      rewrite Z.mod_add in H by lia. rewrite Z.mod_small in H by lia. lia.
    + rewrite Z.mod_small in H by lia. lia.
Qed.

(** The step of a directional key, for a cursor inside the list. *)
Lemma handler_first_reached (config : SelectConfig) (st : PromptState)
    (key : KeypressEvent) :
  (exists i, isSelectableChoice (get (choices config) i) = true) ->
  0 <= cursorPosition st < length (choices config) ->
  isDirectional key = true ->
  exists p,
    first_reached (choices config) (cursorPosition st) (step_offset key) p /\
    forall fuel, (List.length (choices config) <= fuel)%nat ->
      handler fuel config st key = Returned (setCursorPos st p, NotCalled).
Proof.
  intros Hex Hc Hkey.
  destruct (searchLoop_in_range (choices config) (cursorPosition st)
              (step_offset key) None Hc (step_offset_unit key) eq_refl Hex)
    as [p [Hfirst Hrun]].
  exists p. split; [exact Hfirst |].
  intros fuel Hfuel. rewrite handler_directional by exact Hkey.
  now rewrite Hrun.
Qed.

(** From the index first reached, the search in the other direction
    first reaches the selectable index it came from. *)
Lemma first_reached_back (l : list Entry) (cursor offset p : Z) :
  0 <= cursor < length l ->
  isSelectableChoice (get l cursor) = true ->
  first_reached l cursor offset p ->
  first_reached l p (- offset) cursor.
Proof.
  intros Hc Hsel [k [Hk [-> [_ Hbefore]]]].
  assert (Hlen : 0 < length l) by lia.
  exists k. split; [exact Hk |]. split; [| split; [exact Hsel |]].
  - rewrite candidate_shift_back by exact Hlen.
    rewrite Z.sub_diag. symmetry. now apply candidate_0.
  - intros j Hj. rewrite candidate_shift_back by exact Hlen.
    apply Hbefore. lia.
Qed.

(** Lines 61-72: from a cursor on a selectable entry, a directional key
    followed by the key of the other direction brings the cursor back. *)
Theorem step_and_back (config : SelectConfig) (st : PromptState)
    (key : KeypressEvent) (fuel : nat) :
  isSelectableChoice (get (choices config) (cursorPosition st)) = true ->
  isDirectional key = true ->
  (List.length (choices config) <= fuel)%nat ->
  dispatch fuel config st [key; opposite key] =
  Returned (st, [NotCalled; NotCalled]).
Proof.
  intros Hsel Hkey Hfuel.
  pose proof (selectable_range _ _ Hsel) as Hc.
  assert (Hex : exists i, isSelectableChoice (get (choices config) i) = true)
    by now exists (cursorPosition st).
  destruct (handler_first_reached config st key Hex Hc Hkey) as [p [Hp Hrun]].
  destruct (step_offset_opposite key Hkey) as [Hkey' Hoff'].
  assert (Hpr : 0 <= p < length (choices config)).
  { destruct Hp as [k [_ [_ [Hs _]]]]. now apply selectable_range. }
  destruct (handler_first_reached config (setCursorPos st p) (opposite key)
              Hex Hpr Hkey') as [q [Hq Hrun']].
  simpl in Hq. rewrite Hoff' in Hq.
  assert (q = cursorPosition st) as ->.
  { apply (first_reached_unique _ _ _ _ _ Hq).
    now apply first_reached_back. }
  simpl. rewrite Hrun by exact Hfuel. rewrite Hrun' by exact Hfuel.
  now destruct st.
Qed.

Lemma step_and_back_witness :
  dispatch 4 example1 {| status := Pending; cursorPosition := 3 |}
    [DownKey; opposite DownKey] =
  Returned ({| status := Pending; cursorPosition := 3 |}, [NotCalled; NotCalled]).
Proof.
  apply (step_and_back example1 {| status := Pending; cursorPosition := 3 |}
           DownKey 4).
  - reflexivity.
  - reflexivity.
  - simpl. lia.
Defined.

(** Lines 66-70: when the neighbour of the cursor in the direction of the
    key (the index after the last being the first, and the index before
    the first the last) is selectable, one turn of the loop is enough and
    the cursor moves to that neighbour. *)
Theorem step_to_neighbour (config : SelectConfig) (st : PromptState)
    (key : KeypressEvent) (fuel : nat) :
  0 <= cursorPosition st < length (choices config) ->
  isDirectional key = true ->
  isSelectableChoice
    (get (choices config)
       ((cursorPosition st + step_offset key) mod length (choices config))) = true ->
  handler (S fuel) config st key =
  Returned ({| status := status st;
               cursorPosition :=
                 (cursorPosition st + step_offset key) mod length (choices config) |},
            NotCalled) /\
  (key = DownKey -> cursorPosition st = length (choices config) - 1 ->
   (cursorPosition st + step_offset key) mod length (choices config) = 0) /\
  (key = UpKey -> cursorPosition st = 0 ->
   (cursorPosition st + step_offset key) mod length (choices config)
   = length (choices config) - 1).
Proof.
  intros Hc Hkey Hsel. split; [| split].
  - rewrite handler_directional by exact Hkey.
    rewrite searchLoop_turn by reflexivity.
    rewrite rem_turn by (auto using step_offset_unit).
    now rewrite searchLoop_done by exact Hsel.
  - intros -> E. simpl. rewrite E.
    replace (length (choices config) - 1 + 1) with (length (choices config)) by lia.
    apply Z.mod_same. lia.
  - intros -> E. simpl. rewrite E. simpl.
    replace (-1) with (length (choices config) - 1 + (-1) * length (choices config))
      by lia.
    rewrite Z.mod_add by lia. apply Z.mod_small. lia.
Qed.

Lemma step_to_neighbour_witness :
  handler 1 example3 {| status := Pending; cursorPosition := 2 |} DownKey =
  Returned ({| status := Pending;
               cursorPosition := (2 + step_offset DownKey) mod length (choices example3) |},
            NotCalled) /\
  (DownKey = DownKey -> 2 = length (choices example3) - 1 ->
   (2 + step_offset DownKey) mod length (choices example3) = 0) /\
  (DownKey = UpKey -> 2 = 0 ->
   (2 + step_offset DownKey) mod length (choices example3)
   = length (choices example3) - 1).
Proof.
  apply (step_to_neighbour example3 {| status := Pending; cursorPosition := 2 |}
           DownKey 0).
  - simpl. unfold length. simpl. lia.
  - reflexivity.
  - reflexivity.
Defined.

(** Lines 61-72: when some selectable entry is not the one under the
    cursor, a directional key moves the cursor to another index. *)
Theorem step_moves (config : SelectConfig) (st : PromptState)
    (key : KeypressEvent) (fuel : nat) (other : Z) :
  0 <= cursorPosition st < length (choices config) ->
  isSelectableChoice (get (choices config) other) = true ->
  other <> cursorPosition st ->
  isDirectional key = true ->
  (List.length (choices config) <= fuel)%nat ->
  exists p,
    handler fuel config st key =
    Returned ({| status := status st; cursorPosition := p |}, NotCalled) /\
    p <> cursorPosition st /\
    isSelectableChoice (get (choices config) p) = true.
Proof.
  intros Hc Hother Hne Hkey Hfuel.
  assert (Hex : exists i, isSelectableChoice (get (choices config) i) = true)
    by now exists other.
  destruct (handler_first_reached config st key Hex Hc Hkey)
    as [p [[k [Hk [-> [Hsel Hbefore]]]] Hrun]].
  eexists. split; [now apply Hrun |]. split; [| exact Hsel].
  destruct (candidate_reaches (choices config) (cursorPosition st)
              (step_offset key) other Hc (selectable_range _ _ Hother)
              (step_offset_unit key)) as [j [Hj Hjo]].
  assert (Hjlt : j < length (choices config)).
  { destruct (Z.eq_dec j (length (choices config))) as [-> | Hn]; [| lia].
    exfalso. apply Hne. rewrite <- Hjo. unfold candidate.
    replace (cursorPosition st + length (choices config) * step_offset key)
      with (cursorPosition st + step_offset key * length (choices config)) by lia.
    rewrite Z.mod_add by lia. apply Z.mod_small. exact Hc. }
  assert (Hkj : k <= j).
  { destruct (Z_le_gt_dec k j) as [H | H]; [exact H |].
    rewrite <- Hjo in Hother.
    rewrite Hbefore in Hother by lia. discriminate. }
  apply candidate_elsewhere; [exact Hc | apply step_offset_unit | lia].
Qed.

Lemma step_moves_witness :
  exists p,
    handler 4 example1 {| status := Pending; cursorPosition := 0 |} UpKey =
    Returned ({| status := Pending; cursorPosition := p |}, NotCalled) /\
    p <> 0 /\
    isSelectableChoice (get (choices example1) p) = true.
Proof.
  apply (step_moves example1 {| status := Pending; cursorPosition := 0 |}
           UpKey 4 3).
  - simpl. unfold length. simpl. lia.
  - reflexivity.
  - simpl. lia.
  - reflexivity.
  - simpl. lia.
Defined.

Lemma presses_reach (config : SelectConfig) (key : KeypressEvent) (t : Z) :
  isDirectional key = true ->
  isSelectableChoice (get (choices config) t) = true ->
  forall (bound d : nat) (st : PromptState),
    (d <= bound)%nat ->
    0 <= cursorPosition st < length (choices config) ->
    candidate (choices config) (cursorPosition st) (step_offset key) (Z.of_nat d) = t ->
    exists n, (n <= d)%nat /\
      forall fuel, (List.length (choices config) <= fuel)%nat ->
        dispatch fuel config st (repeat key n) =
        Returned (setCursorPos st t, repeat NotCalled n).
Proof.
  intros Hkey Ht.
  assert (Hex : exists i, isSelectableChoice (get (choices config) i) = true)
    by now exists t.
  induction bound as [| bound IH]; intros d st Hd Hc Hcand.
  - assert (d = O) as -> by lia.
    exists O. split; [lia |]. intros fuel _. simpl.
    rewrite candidate_0 in Hcand by exact Hc. subst t.
    now rewrite setCursorPos_same.
  - destruct d as [| d].
    + exists O. split; [lia |]. intros fuel _. simpl.
      rewrite candidate_0 in Hcand by exact Hc. subst t.
      now rewrite setCursorPos_same.
    + destruct (handler_first_reached config st key Hex Hc Hkey)
        as [p [[k [Hk [Hp [Hsel Hbefore]]]] Hrun]].
      assert (Hkd : k <= Z.of_nat (S d)).
      { destruct (Z_le_gt_dec k (Z.of_nat (S d))) as [H | H]; [exact H |].
        rewrite <- Hcand in Ht. rewrite Hbefore in Ht by lia. discriminate. }
      assert (Hpr : 0 <= p < length (choices config))
        by now apply selectable_range.
      destruct (IH (Z.to_nat (Z.of_nat (S d) - k)) (setCursorPos st p))
        as [n [Hn Hdis]].
      * lia.
      * exact Hpr.
      * cbn [cursorPosition setCursorPos]. rewrite Hp, candidate_shift by lia.
        rewrite <- Hcand.
        now replace (k + Z.of_nat (Z.to_nat (Z.of_nat (S d) - k)))
          with (Z.of_nat (S d)) by lia.
      * exists (S n). split; [lia |].
        intros fuel Hfuel. simpl.
        rewrite Hrun by exact Hfuel. now rewrite Hdis by exact Hfuel.
Qed.

(** Lines 61-72: every selectable entry can be reached with one arrow
    key alone: from a cursor inside the list, pressing the up key, or the
    down key, at most as many times as the list is long puts the
    cursor on any given selectable entry. *)
Theorem every_selectable_in_reach (config : SelectConfig) (st : PromptState)
    (key : KeypressEvent) (target : Z) :
  0 <= cursorPosition st < length (choices config) ->
  isSelectableChoice (get (choices config) target) = true ->
  isDirectional key = true ->
  exists n, (n <= List.length (choices config))%nat /\
    forall fuel, (List.length (choices config) <= fuel)%nat ->
      dispatch fuel config st (repeat key n) =
      Returned ({| status := status st; cursorPosition := target |},
                repeat NotCalled n).
Proof.
  intros Hc Ht Hkey.
  destruct (candidate_reaches (choices config) (cursorPosition st)
              (step_offset key) target Hc (selectable_range _ _ Ht)
              (step_offset_unit key)) as [k [Hk Hcand]].
  destruct (presses_reach config key target Hkey Ht (Z.to_nat k) (Z.to_nat k) st)
    as [n [Hn Hdis]].
  - lia.
  - exact Hc.
  - now rewrite Z2Nat.id by lia.
  - exists n. split; [unfold length in Hk; lia | exact Hdis].
Qed.

Lemma every_selectable_in_reach_witness :
  exists n, (n <= List.length (choices example1))%nat /\
    forall fuel, (List.length (choices example1) <= fuel)%nat ->
      dispatch fuel example1 {| status := Pending; cursorPosition := 0 |}
        (repeat UpKey n) =
      Returned ({| status := Pending; cursorPosition := 3 |}, repeat NotCalled n).
Proof.
  apply (every_selectable_in_reach example1
           {| status := Pending; cursorPosition := 0 |} UpKey 3).
  - simpl. unfold length. simpl. lia.
  - reflexivity.
  - reflexivity.
Defined.

(** ** The list body and the pending frame *)

Lemma map_from_nth {A B : Type} (f : A -> Z -> B) (l : list A) :
  forall i k,
    nth_error (map_from f l i) k =
    option_map (fun x => f x (i + Z.of_nat k)) (nth_error l k).
Proof.
  induction l as [| x l IH]; intros i k.
  - now destruct k.
  - destruct k as [| k]; simpl.
    + now rewrite Z.add_0_r.
    + rewrite IH. destruct (nth_error l k); simpl; [| reflexivity].
      do 2 f_equal. lia.
Qed.

Lemma get_mapi {A B : Type} (f : A -> Z -> B) (l : list A) (i : Z) :
  get (mapi f l) i = option_map (fun x => f x i) (get l i).
Proof.
  unfold get, mapi. destruct (Z.ltb_spec i 0) as [H | H]; [reflexivity |].
  rewrite map_from_nth. destruct (nth_error l (Z.to_nat i)); simpl; [| reflexivity].
  do 2 f_equal. lia.
Qed.

Lemma map_from_length {A B : Type} (f : A -> Z -> B) (l : list A) :
  forall i, List.length (map_from f l i) = List.length l.
Proof. induction l as [| x l IH]; intros i; simpl; [| rewrite IH]; reflexivity. Qed.

Section RendererMore.

Variables bold dim cyan : string -> string.
Variable pointer : string.
Variable cursorHide : string.
Variable prefix : string.
Variable Paginator : Type.
Variable paginate : Paginator -> string -> Z -> option Z -> string * Paginator.

Local Abbreviation render_ :=
  (render bold dim cyan pointer cursorHide prefix Paginator paginate).
Local Abbreviation body_ cursor l := (mapi (renderChoice dim cyan pointer cursor) l).
Local Abbreviation header_ := (header_spec bold dim).

Lemma renderChoice_unselectable (a b i j : Z) (e : Entry) :
  isSelectableChoice (Some e) = false ->
  renderChoice dim cyan pointer a e i = renderChoice dim cyan pointer b e j.
Proof.
  destruct e as [c | s]; simpl; [| reflexivity].
  intros H. apply negb_false_iff in H. now rewrite H.
Qed.

Lemma renderChoice_selectable (a i : Z) (c : Choice) :
  truthy_disabled (disabled c) = false ->
  renderChoice dim cyan pointer a (IsChoice c) i =
  if i =? a then cyan (pointer ++ " " ++ name_unless_empty c)%string
  else ("  " ++ name_unless_empty c)%string.
Proof. intros H. simpl. now rewrite H, line_of_label. Qed.

(** Lines 96-114: the list body has one line per entry, in order. The
    line of an entry that is not selectable is the same wherever the
    cursor is; the line under the cursor, when that entry is selectable,
    is the pointer and the label, highlighted; every other selectable
    entry gives its label, indented and not highlighted; so moving the
    cursor changes no line but the two it leaves and enters. *)
Theorem list_body_lines (l : list Entry) (a b : Z) :
  List.length (body_ a l) = List.length l /\
  (forall i, isSelectableChoice (get l i) = false ->
     get (body_ a l) i = get (body_ b l) i) /\
  (forall i, i <> a -> i <> b -> get (body_ a l) i = get (body_ b l) i) /\
  (forall c, get l a = Some (IsChoice c) ->
     truthy_disabled (disabled c) = false ->
     get (body_ a l) a = Some (cyan (pointer ++ " " ++ name_unless_empty c)%string)) /\
  (forall i c, get l i = Some (IsChoice c) ->
     truthy_disabled (disabled c) = false -> i <> a ->
     get (body_ a l) i = Some ("  " ++ name_unless_empty c)%string).
Proof.
  split; [apply map_from_length |].
  split; [| split; [| split]].
  - intros i H. rewrite !get_mapi.
    destruct (get l i) as [e |]; [| reflexivity]. simpl. f_equal.
    now apply renderChoice_unselectable.
  - intros i Ha Hb. rewrite !get_mapi.
    destruct (get l i) as [e |]; [| reflexivity]. simpl. f_equal.
    destruct (isSelectableChoice (Some e)) eqn:E.
    + destruct e as [c | s]; [| discriminate]. simpl in E.
      apply negb_true_iff in E. rewrite !renderChoice_selectable by exact E.
      destruct (Z.eqb_spec i a), (Z.eqb_spec i b); congruence.
    + now apply renderChoice_unselectable.
  - intros c E Hd. rewrite get_mapi, E. cbn [option_map].
    rewrite renderChoice_selectable by exact Hd. now rewrite Z.eqb_refl.
  - intros i c E Hd Hi. rewrite get_mapi, E. cbn [option_map].
    rewrite renderChoice_selectable by exact Hd.
    destruct (Z.eqb_spec i a); congruence.
Qed.

(** Lines 96-120: the frame of a pending state with the cursor on a
    choice is the prefix and the header on the first line, then what the
    paginator returns for the whole list body joined by line breaks, the
    cursor position and the page size, then the description of the choice
    under the cursor on a line of its own when it is a non-empty string
    and nothing when it is absent or empty, then the cursor-hiding
    sequence; the paginator is called once and its new state kept. *)
Theorem pending_frame (config : SelectConfig) (refs : Refs Paginator)
    (st : PromptState) (c : Choice) :
  status st = Pending ->
  get (choices config) (cursorPosition st) = Some (IsChoice c) ->
  render_ config refs st =
  (Returned
     (prefix ++ " " ++ header_ config (firstRender refs) ++ newline
      ++ fst (paginate (paginator refs)
                (String.concat newline (body_ (cursorPosition st) (choices config)))
                (cursorPosition st) (pageSize config))
      ++ match description c with
         | Some (String a rest) => newline ++ String a rest
         | _ => ""
         end
      ++ cursorHide)%string,
   {| firstRender := false;
      paginator :=
        snd (paginate (paginator refs)
               (String.concat newline (body_ (cursorPosition st) (choices config)))
               (cursorPosition st) (pageSize config)) |}).
Proof.
  intros Hst E. rewrite render_unfold. unfold renderFrame. rewrite Hst, E.
  destruct (paginate (paginator refs) _ (cursorPosition st) (pageSize config))
    as [w pg'].
  simpl. now destruct (description c) as [[| a rest] |].
Qed.

(** Line 54, "Safe to assume the cursor position always point to a
    Choice": in a reachable state neither the handler nor the renderer
    reads a property of [undefined]. The handler returns on every key,
    once the loop is given as many turns as the list is long, into a
    reachable state; and the renderer returns a frame. *)
Theorem reachable_never_stuck (config : SelectConfig) (st : PromptState) :
  reachable config st ->
  (forall key fuel, (List.length (choices config) <= fuel)%nat ->
     exists st' c,
       handler fuel config st key = Returned (st', c) /\ reachable config st') /\
  (forall refs, exists f, fst (render_ config refs st) = Returned f).
Proof.
  intros Hreach.
  pose proof (reachable_selectable _ _ Hreach) as Hsel.
  pose proof (selectable_range _ _ Hsel) as Hc.
  destruct (proj1 (selectable_choice _) Hsel) as [c [E _]].
  split.
  - intros key fuel Hfuel.
    assert (Hret : exists st' d, handler fuel config st key = Returned (st', d)).
    { destruct (isDirectional key) eqn:Hkey.
      - destruct (handler_first_reached config st key
                    (ex_intro _ _ Hsel) Hc Hkey) as [p [_ Hrun]].
        eexists _, _. now apply Hrun.
      - destruct key as [| | | n |]; try discriminate; unfold handler.
        + rewrite E. eexists _, _. reflexivity.
        + destruct (negb (isSelectableChoice (get (choices config) (n - 1))));
            eexists _, _; reflexivity.
        + eexists _, _. reflexivity. }
    destruct Hret as [st' [d Hd]]. exists st', d. split; [exact Hd |].
    now apply reachable_keypress with st key fuel d.
  - intros refs. rewrite render_unfold. simpl.
    destruct (status st) eqn:Hst.
    + now apply renderFrame_pending_returns with (IsChoice c).
    + rewrite (renderFrame_done _ _ _ _ _ _ _ config _ _ st c Hst E).
      eexists. reflexivity.
Qed.

End RendererMore.

Lemma list_body_lines_witness :
  get (mapi (renderChoice (fun s => s) (fun s => s) ">" 0) (choices example1)) 0 =
  Some "> a"%string /\
  get (mapi (renderChoice (fun s => s) (fun s => s) ">" 0) (choices example1)) 2 =
  get (mapi (renderChoice (fun s => s) (fun s => s) ">" 3) (choices example1)) 2.
Proof.
  split.
  - apply (proj1 (proj2 (proj2 (proj2
             (list_body_lines (fun s => s) (fun s => s) ">" (choices example1) 0 3))))
           {| value := "a"; name := None; description := None; disabled := None |}).
    + reflexivity.
    + reflexivity.
  - apply (proj1 (proj2
             (list_body_lines (fun s => s) (fun s => s) ">" (choices example1) 0 3))).
    reflexivity.
Defined.

Lemma pending_frame_witness :
  plain_render described_config used_refs
    {| status := Pending; cursorPosition := 1 |} =
  (Returned ("? Pick" ++ newline ++ "  a" ++ newline ++ "> Delta" ++ newline
             ++ "The fourth letter" ++ "<hide>")%string,
   {| firstRender := false; paginator := 2%nat |}).
Proof.
  apply (pending_frame (fun s => s) (fun s => s) (fun s => s) ">" "<hide>" "?"
           nat plain_paginate described_config used_refs
           {| status := Pending; cursorPosition := 1 |} described).
  - reflexivity.
  - reflexivity.
Defined.

Lemma reachable_never_stuck_witness :
  (forall key fuel, (List.length (choices example2) <= fuel)%nat ->
     exists st' c,
       handler fuel example2 {| status := Pending; cursorPosition := 1 |} key =
       Returned (st', c) /\ reachable example2 st') /\
  (forall refs, exists f,
     fst (plain_render example2 refs {| status := Pending; cursorPosition := 1 |}) =
     Returned f).
Proof.
  apply (reachable_never_stuck (fun s => s) (fun s => s) (fun s => s) ">" "<hide>"
           "?" nat plain_paginate example2
           {| status := Pending; cursorPosition := 1 |}).
  apply reachable_init. reflexivity.
Defined.

(** ** The arrow keys in list order *)

Lemma handler_lands (config : SelectConfig) (st : PromptState)
    (key : KeypressEvent) (q : Z) (fuel : nat) :
  0 <= cursorPosition st < length (choices config) ->
  isDirectional key = true ->
  first_reached (choices config) (cursorPosition st) (step_offset key) q ->
  (List.length (choices config) <= fuel)%nat ->
  handler fuel config st key =
  Returned ({| status := status st; cursorPosition := q |}, NotCalled).
Proof.
  intros Hc Hkey Hq Hfuel.
  assert (Hex : exists i, isSelectableChoice (get (choices config) i) = true).
  { destruct Hq as [k [_ [_ [Hsel _]]]]. now exists q. }
  destruct (handler_first_reached config st key Hex Hc Hkey) as [p [Hp Hrun]].
  rewrite Hrun by exact Hfuel.
  now rewrite (first_reached_unique _ _ _ _ _ Hp Hq).
Qed.

Lemma candidate_down_small (l : list Entry) (cursor j : Z) :
  0 <= cursor -> 0 <= j -> cursor + j < length l ->
  candidate l cursor 1 j = cursor + j.
Proof.
  intros Hc Hj H. unfold candidate. rewrite Z.mul_1_r. apply Z.mod_small. lia.
Qed.

Lemma candidate_down_wrap (l : list Entry) (cursor j : Z) :
  length l <= cursor + j < 2 * length l ->
  candidate l cursor 1 j = cursor + j - length l.
Proof.
  intros H. unfold candidate. rewrite Z.mul_1_r.
  transitivity ((cursor + j - length l + 1 * length l) mod length l);
    [f_equal; lia |].
  rewrite Z.mod_add by lia. apply Z.mod_small. lia.
Qed.

Lemma candidate_up_small (l : list Entry) (cursor j : Z) :
  cursor < length l -> 0 <= j -> 0 <= cursor - j ->
  candidate l cursor (-1) j = cursor - j.
Proof.
  intros Hc Hj H. unfold candidate.
  transitivity ((cursor - j) mod length l); [f_equal; lia |].
  apply Z.mod_small. lia.
Qed.

Lemma candidate_up_wrap (l : list Entry) (cursor j : Z) :
  - length l <= cursor - j < 0 ->
  candidate l cursor (-1) j = cursor - j + length l.
Proof.
  intros H. unfold candidate.
  transitivity ((cursor - j + length l + (-1) * length l) mod length l);
    [f_equal; lia |].
  rewrite Z.mod_add by lia. apply Z.mod_small. lia.
Qed.

(** Lines 61-72, down key: the cursor goes to the next selectable entry
    below it in the list; when there is none below, it goes to the entry
    the prompt started on, the first selectable entry of the list. *)
Theorem down_in_list_order (config : SelectConfig) (st : PromptState)
    (fuel : nat) :
  0 <= cursorPosition st < length (choices config) ->
  (List.length (choices config) <= fuel)%nat ->
  (forall next,
     cursorPosition st < next ->
     isSelectableChoice (get (choices config) next) = true ->
     (forall i, cursorPosition st < i < next ->
        isSelectableChoice (get (choices config) i) = false) ->
     handler fuel config st DownKey =
     Returned ({| status := status st; cursorPosition := next |}, NotCalled)) /\
  (forall start,
     (forall i, cursorPosition st < i ->
        isSelectableChoice (get (choices config) i) = false) ->
     initialCursorPosition (choices config) = Returned start ->
     handler fuel config st DownKey =
     Returned ({| status := status st; cursorPosition := start |}, NotCalled)).
Proof.
  intros Hc Hfuel. split.
  - intros next Hlt Hsel Hbetween.
    pose proof (selectable_range _ _ Hsel) as Hn.
    apply handler_lands; try assumption; [reflexivity |].
    exists (next - cursorPosition st). simpl step_offset.
    split; [lia |]. split; [| split; [exact Hsel |]].
    + rewrite candidate_down_small by lia. lia.
    + intros j Hj.
      rewrite candidate_down_small by lia.
      apply Hbetween. lia.
  - intros start Hnone Hinit.
    destruct (initialCursorPosition_spec (choices config))
      as [[E _] | [start' [E [Hsel Hbefore]]]]; rewrite E in Hinit;
      [discriminate |].
    inversion Hinit; subst start'.
    pose proof (selectable_range _ _ Hsel) as Hs.
    assert (Hle : start <= cursorPosition st).
    { destruct (Z_le_gt_dec start (cursorPosition st)) as [H | H]; [exact H |].
      rewrite Hnone in Hsel by lia. discriminate. }
    apply handler_lands; try assumption; [reflexivity |].
    exists (length (choices config) - cursorPosition st + start).
    simpl step_offset.
    split; [lia |]. split; [| split; [exact Hsel |]].
    + rewrite candidate_down_wrap by lia. lia.
    + intros j Hj.
      destruct (Z_lt_dec (cursorPosition st + j) (length (choices config)))
        as [Hsmall | Hwrap].
      * rewrite candidate_down_small by lia.
        apply Hnone. lia.
      * rewrite candidate_down_wrap by lia.
        apply Hbefore. lia.
Qed.

Lemma down_in_list_order_witness :
  handler 4 example1 {| status := Pending; cursorPosition := 0 |} DownKey =
  Returned ({| status := Pending; cursorPosition := 3 |}, NotCalled) /\
  handler 4 example1 {| status := Pending; cursorPosition := 3 |} DownKey =
  Returned ({| status := Pending; cursorPosition := 0 |}, NotCalled).
Proof.
  split.
  - apply (proj1 (down_in_list_order example1
                    {| status := Pending; cursorPosition := 0 |} 4
                    ltac:(simpl; unfold length; simpl; lia)
                    ltac:(simpl; lia)) 3).
    + simpl. lia.
    + reflexivity.
    + simpl. intros i Hi.
      assert (Hcases : i = 1 \/ i = 2) by lia.
      destruct Hcases as [-> | ->]; reflexivity.
  - apply (proj2 (down_in_list_order example1
                    {| status := Pending; cursorPosition := 3 |} 4
                    ltac:(simpl; unfold length; simpl; lia)
                    ltac:(simpl; lia)) 0).
    + intros i Hi. simpl in Hi.
      destruct (get (choices example1) i) as [e |] eqn:E; [| reflexivity].
      pose proof (get_Some_range _ _ _ E) as Hr. unfold length in Hr.
      simpl in Hr. lia.
    + reflexivity.
Defined.

(** Lines 61-72, up key: the cursor goes to the nearest selectable entry
    above it in the list; when there is none above, it goes to the last
    selectable entry of the list. *)
Theorem up_in_list_order (config : SelectConfig) (st : PromptState)
    (fuel : nat) :
  0 <= cursorPosition st < length (choices config) ->
  (List.length (choices config) <= fuel)%nat ->
  (forall previous,
     previous < cursorPosition st ->
     isSelectableChoice (get (choices config) previous) = true ->
     (forall i, previous < i < cursorPosition st ->
        isSelectableChoice (get (choices config) i) = false) ->
     handler fuel config st UpKey =
     Returned ({| status := status st; cursorPosition := previous |}, NotCalled)) /\
  (forall last,
     (forall i, i < cursorPosition st ->
        isSelectableChoice (get (choices config) i) = false) ->
     isSelectableChoice (get (choices config) last) = true ->
     (forall i, last < i ->
        isSelectableChoice (get (choices config) i) = false) ->
     handler fuel config st UpKey =
     Returned ({| status := status st; cursorPosition := last |}, NotCalled)).
Proof.
  intros Hc Hfuel. split.
  - intros previous Hlt Hsel Hbetween.
    pose proof (selectable_range _ _ Hsel) as Hp.
    apply handler_lands; try assumption; [reflexivity |].
    exists (cursorPosition st - previous). simpl step_offset.
    split; [lia |]. split; [| split; [exact Hsel |]].
    + rewrite candidate_up_small by lia. lia.
    + intros j Hj.
      rewrite candidate_up_small by lia.
      apply Hbetween. lia.
  - intros last Hnone Hsel Hafter.
    pose proof (selectable_range _ _ Hsel) as Hl.
    assert (Hge : cursorPosition st <= last).
    { destruct (Z_le_gt_dec (cursorPosition st) last) as [H | H]; [exact H |].
      rewrite Hnone in Hsel by lia. discriminate. }
    apply handler_lands; try assumption; [reflexivity |].
    exists (cursorPosition st - last + length (choices config)).
    simpl step_offset.
    split; [lia |]. split; [| split; [exact Hsel |]].
    + rewrite candidate_up_wrap by lia. lia.
    + intros j Hj.
      destruct (Z_le_gt_dec 0 (cursorPosition st - j)) as [Hsmall | Hwrap].
      * rewrite candidate_up_small by lia.
        apply Hnone. lia.
      * rewrite candidate_up_wrap by lia.
        apply Hafter. lia.
Qed.

Lemma up_in_list_order_witness :
  handler 4 example1 {| status := Pending; cursorPosition := 3 |} UpKey =
  Returned ({| status := Pending; cursorPosition := 0 |}, NotCalled) /\
  handler 4 example1 {| status := Pending; cursorPosition := 0 |} UpKey =
  Returned ({| status := Pending; cursorPosition := 3 |}, NotCalled).
Proof.
  split.
  - apply (proj1 (up_in_list_order example1
                    {| status := Pending; cursorPosition := 3 |} 4
                    ltac:(simpl; unfold length; simpl; lia)
                    ltac:(simpl; lia)) 0).
    + simpl. lia.
    + reflexivity.
    + simpl. intros i Hi.
      assert (Hcases : i = 1 \/ i = 2) by lia.
      destruct Hcases as [-> | ->]; reflexivity.
  - apply (proj2 (up_in_list_order example1
                    {| status := Pending; cursorPosition := 0 |} 4
                    ltac:(simpl; unfold length; simpl; lia)
                    ltac:(simpl; lia)) 3).
    + simpl. intros i Hi. now rewrite get_negative.
    + reflexivity.
    + intros i Hi. simpl in Hi.
      destruct (get (choices example1) i) as [e |] eqn:E; [| reflexivity].
      pose proof (get_Some_range _ _ _ E) as Hr. unfold length in Hr.
      simpl in Hr. lia.
Defined.
